(** * PDFDocumentWriter: assembling a PDF document into one byte buffer

    A shallow embedding of [src/core/pdf-document/PDFDocumentWriter.ts]
    (the two entry points [saveToBytes] and [saveToBytesWithObjectStreams]
    and the private helper [sortIndex]) and the properties of the
    assembly layer.

    The writer talks to many classes that live in other files of the
    library (the object model, the cross-reference factories, the header
    and the trailers).  They are kept abstract here: the classes of the
    object model are a type class [ObjectModel], the values built by the
    factories are records that remember the arguments of the call, and
    what each writable thing reports as its size and what it really
    copies are the fields of a second type class [Collaborators]. *)

From Stdlib Require Import ZArith Strings.Byte Sorting.Sorted.
From stdpp Require Import prelude strings.

Open Scope Z_scope.
Open Scope nat_scope.

(** ** The object model, as far as the writer looks at it *)

(** Modelled from the spec: [PDFIndirectReference], which is not in this
    file.  An Indirect Reference is "(object number, generation)" and
    "identity is exact equality of both fields"; it is built with
    [PDFIndirectReference.forNumbers(objectNumber, generationNumber)].
    Object numbers are JavaScript numbers that hold integers; the
    comparison function of [sortIndex] subtracts them, so they are in [Z].
    A sum of such numbers is rounded as the language rounds it, see
    [Number_add]. *)
Record PDFIndirectReference : Type := forNumbers {
  objectNumber : Z;
  generationNumber : Z;
}.

(** [PDFNumber.fromNumber(n)]. *)
Record PDFNumber : Type := fromNumber { number : Z }.

(** The classes the writer tests with [instanceof], and the header.  The
    two tests are independent in the source (two separate [if]s), so
    nothing relates them here. *)
Class ObjectModel : Type := {
  PDFObject : Type;
  PDFHeader : Type;
  instanceof_PDFCatalog : PDFObject → bool;
  instanceof_PDFStream : PDFObject → bool;
}.

(** A JavaScript [Map<PDFIndirectReference, PDFObject>]: iteration is in
    insertion order, so it is an association list in that order. *)
Abbreviation JSMap := (list (PDFIndirectReference * PDFObject)).

Section model.
Context `{OM : ObjectModel}.

(** Modelled from the spec: [PDFObjectIndex], the "mapping from Indirect
    Reference to object value"; its field [index] is the [Map]. *)
Record PDFObjectIndex : Type := { index : JSMap }.

(** Modelled from the spec: [PDFDocument], with the three fields the
    writer reads: the header, the Object Index and "the maximum object
    number currently assigned" ([pdfDoc.index] is [doc_index] here,
    [index] being taken). *)
Record PDFDocument : Type := {
  header : PDFHeader;
  doc_index : PDFObjectIndex;
  maxObjNum : Z;
}.

(** Modelled from the spec: [PDFIndirectObject], "an object value bound to
    exactly one Indirect Reference".  The writer makes every unit with
    [PDFIndirectObject.of(pdfObject).setReference(reference)]; between the
    two calls the reference is not set, which is [(0, 0)] here and is never
    read. *)
Record PDFIndirectObject : Type := {
  pdfObject : PDFObject;
  reference : PDFIndirectReference;
}.

Definition PDFIndirectObject_of (object : PDFObject) : PDFIndirectObject :=
  {| pdfObject := object; reference := forNumbers 0 0 |}.

Definition setReference (o : PDFIndirectObject) (ref : PDFIndirectReference)
  : PDFIndirectObject :=
  {| pdfObject := pdfObject o; reference := ref |}.

(** *** What the factories build

    The factories are not part of the writer.  What they return is kept
    as the record of what they were called with; how such a value is
    sized and encoded is left to [Collaborators] below. *)

(** The table half of [PDFXRefTableFactory.forIndirectObjects(header, sortedIndex)]. *)
Record PDFXRefTable : Type := {
  table_header : PDFHeader;
  table_objects : list PDFIndirectObject;
}.

(** [PDFDictionary.from({ Size, Root }, index)]. *)
Record PDFDictionary : Type := PDFDictionary_from {
  Size : PDFNumber;
  Root : PDFIndirectReference;
  dictionary_index : PDFObjectIndex;
}.

(** [PDFTrailer.from(offset, dictionary)]. *)
Record PDFTrailer : Type := PDFTrailer_from {
  trailer_offset : nat;
  trailer_dictionary : PDFDictionary;
}.

(** [PDFTrailerX.from(offset)]. *)
Record PDFTrailerX : Type := PDFTrailerX_from { trailerX_offset : nat }.

(** The stream half of [PDFXRefStreamFactory.forIndirectObjects(header,
    streamObjects, objectStreamIndObj, index, catalogRef)]. *)
Record PDFXRefStream : Type := {
  xref_header : PDFHeader;
  xref_objects : list PDFIndirectObject;
  xref_objectStream : PDFIndirectObject;
  xref_index : PDFObjectIndex;
  xref_root : PDFIndirectReference;
}.

(** Everything the writer calls [bytesSize] and [copyBytesInto] on. *)
Inductive Writable : Type :=
  | Header (h : PDFHeader)
  | IndirectObject (o : PDFIndirectObject)
  | XRefTable (t : PDFXRefTable)
  | Trailer (t : PDFTrailer)
  | XRefStream (x : PDFXRefStream)
  | TrailerX (t : PDFTrailerX).

(** The behaviour of the other classes.  [bytesSize w] is what
    [w.bytesSize()] reports, [bytesOf w] is what [w.copyBytesInto] puts in
    the buffer; nothing relates the two unless [SizesExact] is assumed.
    [PDFObjectStream_create_encode index objects] is
    [PDFObjectStream.create(index, objects).encode()]. *)
Class Collaborators : Type := {
  bytesSize : Writable → nat;
  bytesOf : Writable → list byte;
  PDFObjectStream_create_encode :
    PDFObjectIndex → list PDFIndirectObject → PDFObject;
}.

Context `{CO : Collaborators}.

(** The contract between a reported size and the bytes copied. *)
Definition SizesExact : Prop := ∀ w, bytesSize w = length (bytesOf w).

(** ** The store, and the monad of the writer *)

(** A [Uint8Array] is a view on an array buffer: [subarray] makes a new
    view on the same memory. *)
Record Uint8Array : Type := {
  buffer : nat;
  byteOffset : nat;
  byteLength : nat;
}.

(** One call of [copyBytesInto]: what was copied, the view it was given
    and the view it returned. *)
Record Copy : Type := {
  copied : Writable;
  into : Uint8Array;
  remaining : Uint8Array;
}.

(** The store: the document the writer is given (a mutable object, which
    holds the [Map]), the array buffers allocated so far, and the journal
    of the calls of [copyBytesInto] (most recent last). *)
Record Store : Type := {
  document : PDFDocument;
  arrayBuffers : list (list byte);
  journal : list Copy;
}.

Inductive Completion (A : Type) : Type :=
  | Normal (a : A)
  | Throw (message : string).
Global Arguments Normal {A} a.
Global Arguments Throw {A} message.

Definition JS (A : Type) : Type := Store → Completion A * Store.

Definition JS_ret {A} (a : A) : JS A := λ s, (Normal a, s).

Definition JS_bind {A B} (f : A → JS B) (m : JS A) : JS B :=
  λ s, match m s with
       | (Normal a, s') => f a s'
       | (Throw msg, s') => (Throw msg, s')
       end.

Global Instance JS_mret : MRet JS := @JS_ret.
Global Instance JS_mbind : MBind JS := @JS_bind.

(** Modelled from the spec: [error] of [utils], which is not in this file.
    It never returns (its result is destructured at the call in
    [saveToBytes]); the spec says the missing root "aborts the entire
    write".  So it throws an error with the message it is given. *)
Definition error {A} (msg : string) : JS A := λ s, (Throw msg, s).

(** Reading the document the entry point was given. *)
Definition getDocument : JS PDFDocument := λ s, (Normal (document s), s).

(** [new Uint8Array(n)]: a fresh zero-filled buffer and the view on all of it. *)
Definition new_Uint8Array (n : nat) : JS Uint8Array := λ s,
  (Normal {| buffer := length (arrayBuffers s); byteOffset := 0; byteLength := n |},
   {| document := document s;
      arrayBuffers := arrayBuffers s ++ [replicate n x00];
      journal := journal s |}).

(** [view.subarray(n)]: the begin index is clamped to the view. *)
Definition subarray (view : Uint8Array) (n : nat) : Uint8Array :=
  {| buffer := buffer view;
     byteOffset := byteOffset view + n `min` byteLength view;
     byteLength := byteLength view - n `min` byteLength view |}.

(** [view[i] = bs[i]] for every [i]: a typed array drops the writes past
    its end. *)
Definition setBytes (view : Uint8Array) (bs : list byte)
  (buffers : list (list byte)) : list (list byte) :=
  alter (list_inserts (byteOffset view) (take (byteLength view) bs))
        (buffer view) buffers.

(** Modelled from the spec: [copyBytesInto] of the header, the indirect
    objects, the table, the cross-reference stream and the trailers
    ("copyInto(buffer) -> remainingBuffer").  It writes the bytes of [w] at
    the start of the view and returns the rest of the view. *)
Definition copyBytesInto (w : Writable) (view : Uint8Array) : JS Uint8Array := λ s,
  let rest := subarray view (length (bytesOf w)) in
  (Normal rest,
   {| document := document s;
      arrayBuffers := setBytes view (bytesOf w) (arrayBuffers s);
      journal := journal s ++ [{| copied := w; into := view; remaining := rest |}] |}).

(** The bytes a view shows. *)
Definition contents (view : Uint8Array) (s : Store) : list byte :=
  take (byteLength view) (drop (byteOffset view) (arrayBuffers s !!! buffer view)).

(** ** The numbers, the arrays and the [Map] of JavaScript *)

(** The double nearest to an integer, ties going to the even mantissa.
    The integers below [2^53] in absolute value are doubles; above, a
    double is a 53-bit mantissa [m] times a power of two [2^e]. *)
Definition Number_round (z : Z) : Z :=
  let a := Z.abs z in
  if (a <? 2 ^ 53)%Z then z
  else
    let e := (Z.log2 a - 52)%Z in
    let q := (a / 2 ^ e)%Z in
    let r := (a mod 2 ^ e)%Z in
    let half := (2 ^ (e - 1))%Z in
    let m :=
      if (r <? half)%Z then q
      else if (half <? r)%Z then (q + 1)%Z
      else if Z.even q then q else (q + 1)%Z in
    (Z.sgn z * (m * 2 ^ e))%Z.

(** [a + b] on two numbers that hold integers: the exact sum, rounded to
    the nearest double.  (A sum beyond the largest double would be
    [Infinity]; adding one to a double never gets there.) *)
Definition Number_add (a b : Z) : Z := Number_round (a + b).
Global Arguments Number_add : simpl never.

(** [map.forEach(callback)]: the callback gets the value and then the key
    of every entry, in insertion order.  The variables the callback
    assigns or pushes to are threaded through as [acc]. *)
Definition Map_forEach {B} (m : JSMap)
  (callback : B → PDFObject → PDFIndirectReference → B) (acc : B) : B :=
  foldl (λ acc entry, callback acc entry.2 entry.1) acc m.

(** [array.push(x)]. *)
Definition push {A} (array : list A) (x : A) : list A := array ++ [x].

(** [array.sort(comparefn)]: a stable sort, as the language asks for since
    ES2019 (on engines older than that the order of the elements that
    compare equal is not fixed).  It is an insertion sort here: an element
    goes before the elements that come after it in the array unless
    [comparefn] puts it after them. *)
Fixpoint Array_sort_insert {A} (comparefn : A → A → Z) (x : A)
  (sorted : list A) : list A :=
  match sorted with
  | [] => [x]
  | y :: rest =>
      if (comparefn x y <=? 0)%Z then x :: y :: rest
      else y :: Array_sort_insert comparefn x rest
  end.

Fixpoint Array_sort {A} (comparefn : A → A → Z) (array : list A) : list A :=
  match array with
  | [] => []
  | x :: array => Array_sort_insert comparefn x (Array_sort comparefn array)
  end.

(** [array.reduce(callback, initial)] with a callback that has effects;
    also [array.forEach] with a callback that reassigns one captured
    variable, which is then the accumulator. *)
Fixpoint Array_reduce {A B} (callback : B → A → JS B) (array : list A)
  (initial : B) : JS B :=
  match array with
  | [] => mret initial
  | x :: array => acc ← callback initial x; Array_reduce callback array acc
  end.

(** ** The cross-reference factories *)

(** Modelled from the spec: [PDFXRefTableFactory.forIndirectObjects], which
    is not in this file.  "Computes tableByteOffset as the header's byte
    length plus the sum of byte lengths of every object in sortedObjects,
    in order", with "a running cursor advanced by each object's byte
    length". *)
Definition PDFXRefTableFactory_forIndirectObjects (header : PDFHeader)
  (sortedIndex : list PDFIndirectObject) : PDFXRefTable * nat :=
  ({| table_header := header; table_objects := sortedIndex |},
   foldl (λ offset o, offset + bytesSize (IndirectObject o))
         (bytesSize (Header header)) sortedIndex).

(** Modelled from the spec: [PDFXRefStreamFactory.forIndirectObjects],
    which is not in this file.  "Return the byte offset where the
    cross-reference stream begins - computed as header length + sum of
    stream-object byte lengths". *)
Definition PDFXRefStreamFactory_forIndirectObjects (header : PDFHeader)
  (streamObjects : list PDFIndirectObject) (objectStream : PDFIndirectObject)
  (index : PDFObjectIndex) (catalogRef : PDFIndirectReference)
  : nat * PDFXRefStream :=
  (foldl (λ offset o, offset + bytesSize (IndirectObject o))
         (bytesSize (Header header)) streamObjects,
   {| xref_header := header; xref_objects := streamObjects;
      xref_objectStream := objectStream; xref_index := index;
      xref_root := catalogRef |}).

(** ** PDFDocumentWriter *)

(** The comparison function of [sortIndex]:
    [({ reference: a }, { reference: b }) => a.objectNumber - b.objectNumber]. *)
Definition compareObjectNumbers (a b : PDFIndirectObject) : Z :=
  (objectNumber (reference a) - objectNumber (reference b))%Z.

(** [sortIndex(index)].  The array [indexArr] is local to the call. *)
Definition sortIndex (index : JSMap) : JS (list PDFIndirectObject) :=
  let indexArr :=
    Map_forEach index
      (λ indexArr object ref,
         push indexArr (setReference (PDFIndirectObject_of object) ref))
      [] in
  mret (Array_sort compareObjectNumbers indexArr).

(** [saveToBytes(pdfDoc)]; [pdfDoc] is the document of the store. *)
Definition saveToBytes : JS Uint8Array :=
  pdfDoc ← getDocument;
  sortedIndex ← sortIndex (index (doc_index pdfDoc));
  catalog ←
    match List.find (λ o, instanceof_PDFCatalog (pdfObject o)) sortedIndex with
    | Some o => mret o
    | None => error "Missing PDFCatalog"
    end;
  let catalogRef := reference catalog in
  let '(table, tableOffset) :=
    PDFXRefTableFactory_forIndirectObjects (header pdfDoc) sortedIndex in
  let trailer :=
    PDFTrailer_from tableOffset
      (PDFDictionary_from
         (fromNumber (Z.of_nat (length sortedIndex) + 1))
         catalogRef
         (doc_index pdfDoc)) in
  let bufferSize :=
    tableOffset + bytesSize (XRefTable table) + bytesSize (Trailer trailer) in
  buffer ← new_Uint8Array bufferSize;
  remaining ← copyBytesInto (Header (header pdfDoc)) buffer;
  remaining ←
    Array_reduce
      (λ remaining indirectObj, copyBytesInto (IndirectObject indirectObj) remaining)
      sortedIndex remaining;
  remaining ← copyBytesInto (XRefTable table) remaining;
  remaining ← copyBytesInto (Trailer trailer) remaining;
  mret buffer.

(** The scan at the start of [saveToBytesWithObjectStreams]: the three
    variables the callback of [pdfDoc.index.index.forEach] writes to are
    [pdfCatalogRef] (unassigned at first), [streamObjects] and
    [nonStreamObjects]. *)
Definition scanIndex (index : JSMap)
  : option PDFIndirectReference * list PDFIndirectObject * list PDFIndirectObject :=
  Map_forEach index
    (λ '(pdfCatalogRef, streamObjects, nonStreamObjects) object ref,
       let pdfCatalogRef :=
         if instanceof_PDFCatalog object then Some ref else pdfCatalogRef in
       if instanceof_PDFStream object
       then (pdfCatalogRef,
             push streamObjects (setReference (PDFIndirectObject_of object) ref),
             nonStreamObjects)
       else (pdfCatalogRef,
             streamObjects,
             push nonStreamObjects (setReference (PDFIndirectObject_of object) ref)))
    (None, [], []).

(** [saveToBytesWithObjectStreams(pdfDoc)]; [pdfDoc] is the document of the
    store. *)
Definition saveToBytesWithObjectStreams : JS Uint8Array :=
  pdfDoc ← getDocument;
  let '(pdfCatalogRef, streamObjects, nonStreamObjects) :=
    scanIndex (index (doc_index pdfDoc)) in
  pdfCatalogRef ←
    match pdfCatalogRef with
    | Some ref => mret ref
    | None => error "Missing PDFCatalog"
    end;
  let maxObjNum := maxObjNum pdfDoc in
  let objectStream :=
    PDFObjectStream_create_encode (doc_index pdfDoc) nonStreamObjects in
  let objectStreamRef := forNumbers (Number_add maxObjNum 1) 0 in
  let objectStreamIndObj :=
    setReference (PDFIndirectObject_of objectStream) objectStreamRef in
  let streamObjects := push streamObjects objectStreamIndObj in
  let '(offset, xrefStream) :=
    PDFXRefStreamFactory_forIndirectObjects
      (header pdfDoc) streamObjects objectStreamIndObj (doc_index pdfDoc)
      pdfCatalogRef in
  let trailer := PDFTrailerX_from offset in
  let bufferSize :=
    offset + bytesSize (XRefStream xrefStream) + bytesSize (TrailerX trailer) in
  buffer ← new_Uint8Array bufferSize;
  remaining ← copyBytesInto (Header (header pdfDoc)) buffer;
  remaining ←
    Array_reduce (λ remBytes obj, copyBytesInto (IndirectObject obj) remBytes)
      streamObjects remaining;
  remaining ← copyBytesInto (XRefStream xrefStream) remaining;
  remaining ← copyBytesInto (TrailerX trailer) remaining;
  mret buffer.

(** ** Vocabulary of the properties *)

(** The Indirect Object Unit of an entry of the index. *)
Definition unitOf (entry : PDFIndirectReference * PDFObject) : PDFIndirectObject :=
  setReference (PDFIndirectObject_of entry.2) entry.1.

(** The entries of the index whose object is a [PDFCatalog], a [PDFStream],
    or not a [PDFStream], in iteration order. *)
Definition catalogs (index : JSMap) : JSMap :=
  filter (λ entry, instanceof_PDFCatalog entry.2) index.

Definition streams (index : JSMap) : JSMap :=
  filter (λ entry, instanceof_PDFStream entry.2) index.

Definition nonStreams (index : JSMap) : JSMap :=
  filter (λ entry, ¬ instanceof_PDFStream entry.2) index.

(** Ascending object numbers. *)
Definition objectNumber_le (a b : PDFIndirectObject) : Prop :=
  (objectNumber (reference a) ≤ objectNumber (reference b))%Z.

(** The sum of the sizes a list of sections reports. *)
Definition reportedSize (sections : list Writable) : nat :=
  sum_list_with bytesSize sections.

(** The bytes of a list of sections, one after the other. *)
Definition bytesOfAll (sections : list Writable) : list byte :=
  concat (bytesOf <$> sections).

(** The journal of copying [sections] one after the other from [view] on. *)
Fixpoint copies (sections : list Writable) (view : Uint8Array) : list Copy :=
  match sections with
  | [] => []
  | w :: sections =>
      let rest := subarray view (length (bytesOf w)) in
      {| copied := w; into := view; remaining := rest |} :: copies sections rest
  end.

(** The copies [written] fill the buffer [result] back to back: the
    buffer is as long as the sizes the sections copied report, the [i]-th
    copy is given the view that starts where the sizes of the sections
    before it add up to and returns the view that starts after its own
    size, and the last copy returns the empty view at the end. *)
Definition BackToBack (result : Uint8Array) (written : list Copy) : Prop :=
  byteOffset result = 0 ∧
  byteLength result = reportedSize (copied <$> written) ∧
  (∀ i c, written !! i = Some c →
     into c
     = {| buffer := buffer result;
          byteOffset := reportedSize (copied <$> take i written);
          byteLength :=
            byteLength result - reportedSize (copied <$> take i written) |} ∧
     remaining c
     = {| buffer := buffer result;
          byteOffset := reportedSize (copied <$> take (S i) written);
          byteLength :=
            byteLength result - reportedSize (copied <$> take (S i) written) |}) ∧
  remaining <$> last written
  = Some {| buffer := buffer result;
            byteOffset := byteLength result;
            byteLength := 0 |}.

(** The store once [sections] have been copied one after the other into
    [view]. *)
Definition afterCopies (s : Store) (view : Uint8Array)
  (sections : list Writable) : Store :=
  {| document := document s;
     arrayBuffers := setBytes view (bytesOfAll sections) (arrayBuffers s);
     journal := journal s ++ copies sections view |}.

(** The store once [new Uint8Array(n)] has run. *)
Definition afterNew (s : Store) (n : nat) : Store :=
  {| document := document s;
     arrayBuffers := arrayBuffers s ++ [replicate n x00];
     journal := journal s |}.

(** The view [new Uint8Array(n)] returns in the store [s]. *)
Definition freshView (s : Store) (n : nat) : Uint8Array :=
  {| buffer := length (arrayBuffers s); byteOffset := 0; byteLength := n |}.

(** What the journal says was copied, by kind and in the order of the
    calls. *)
Definition sectionsWritten (s : Store) : list Writable := copied <$> journal s.

Definition objectsWritten (s : Store) : list PDFIndirectObject :=
  omap (λ w, match w with IndirectObject o => Some o | _ => None end)
       (sectionsWritten s).

Definition trailersWritten (s : Store) : list PDFTrailer :=
  omap (λ w, match w with Trailer t => Some t | _ => None end)
       (sectionsWritten s).

Definition xrefStreamsWritten (s : Store) : list PDFXRefStream :=
  omap (λ w, match w with XRefStream x => Some x | _ => None end)
       (sectionsWritten s).

(** What a caller gets from an entry point: the bytes of the buffer it
    returns, or the error it throws. *)
Definition output (entry : JS Uint8Array) (s : Store) : Completion (list byte) :=
  match entry s with
  | (Normal buffer, s') => Normal (contents buffer s')
  | (Throw msg, _) => Throw msg
  end.

End model.

(** ** A small object model to run the writer on *)

Inductive SampleObject : Type :=
  | SampleCatalog
  | SampleDictionary
  | SampleStream
  | SampleObjectStream (members : nat).

Definition sampleModel : ObjectModel := {|
  PDFObject := SampleObject;
  PDFHeader := unit;
  instanceof_PDFCatalog o :=
    match o with SampleCatalog => true | _ => false end;
  instanceof_PDFStream o :=
    match o with SampleStream | SampleObjectStream _ => true | _ => false end;
|}.

Definition sampleBytes (w : @Writable sampleModel) : list byte :=
  match w with
  | Header _ => [x25; x50; x44; x46]
  | IndirectObject o =>
      match pdfObject o return list byte with
      | SampleCatalog => [x43; x61; x74]
      | SampleDictionary => [x3c; x3e]
      | SampleStream => [x73; x74; x72; x6d]
      | SampleObjectStream members => replicate members x6f
      end
  | XRefTable t => replicate (length (table_objects t)) x78
  | Trailer _ => [x74; x72]
  | XRefStream x => replicate (length (xref_objects x)) x58
  | TrailerX _ => [x54]
  end.

Definition sampleCollaborators : @Collaborators sampleModel := {|
  bytesSize w := length (sampleBytes w);
  bytesOf := sampleBytes;
  PDFObjectStream_create_encode _ objects := SampleObjectStream (length objects);
|}.

Definition sampleIndex (entries : list (PDFIndirectReference * SampleObject))
  : @PDFObjectIndex sampleModel :=
  @Build_PDFObjectIndex sampleModel entries.

(** The document of the scenario: 1 is the Catalog, 2 a dictionary, 3 a
    stream. *)
Definition scenarioDocument : @PDFDocument sampleModel := {|
  header := (tt : @PDFHeader sampleModel);
  doc_index := sampleIndex
               [(forNumbers 1 0, SampleCatalog);
                (forNumbers 2 0, SampleDictionary);
                (forNumbers 3 0, SampleStream)];
  maxObjNum := 3;
|}.

(** A document without a Catalog. *)
Definition rootlessDocument : @PDFDocument sampleModel := {|
  header := (tt : @PDFHeader sampleModel);
  doc_index := sampleIndex
               [(forNumbers 2 0, SampleDictionary);
                (forNumbers 1 0, SampleStream)];
  maxObjNum := 2;
|}.

(** A document with two Catalogs. *)
Definition twoCatalogsDocument : @PDFDocument sampleModel := {|
  header := (tt : @PDFHeader sampleModel);
  doc_index := sampleIndex
               [(forNumbers 1 0, SampleCatalog);
                (forNumbers 3 0, SampleStream);
                (forNumbers 2 0, SampleCatalog)];
  maxObjNum := 3;
|}.

Definition freshStore (pdfDoc : @PDFDocument sampleModel)
  : @Store sampleModel :=
  {| document := pdfDoc; arrayBuffers := []; journal := [] |}.

(** A store where a buffer has been allocated before. *)
Definition busyStore (pdfDoc : @PDFDocument sampleModel)
  : @Store sampleModel :=
  {| document := pdfDoc; arrayBuffers := [[x01; x02; x03]]; journal := [] |}.

(** The scenario with the entries of the index in another order. *)
Definition shuffledDocument : @PDFDocument sampleModel := {|
  header := (tt : @PDFHeader sampleModel);
  doc_index := sampleIndex
               [(forNumbers 3 0, SampleStream);
                (forNumbers 1 0, SampleCatalog);
                (forNumbers 2 0, SampleDictionary)];
  maxObjNum := 3;
|}.

(** A document whose [maxObjNum] is behind its index: 4 is in the index. *)
Definition staleDocument : @PDFDocument sampleModel := {|
  header := (tt : @PDFHeader sampleModel);
  doc_index := sampleIndex
               [(forNumbers 1 0, SampleCatalog);
                (forNumbers 4 0, SampleStream)];
  maxObjNum := 3;
|}.

(** A document whose only object, the Catalog, has the number [2^53]. *)
Definition hugeDocument : @PDFDocument sampleModel := {|
  header := (tt : @PDFHeader sampleModel);
  doc_index := sampleIndex [(forNumbers (2 ^ 53) 0, SampleCatalog)];
  maxObjNum := 2 ^ 53;
|}.

(** * Properties *)

Section properties.
Context `{CO : Collaborators}.

(** ** Running the monad *)

Lemma run_bind {A B} (m : JS A) (f : A → JS B) (s : Store) :
  (m ≫= f) s =
  match m s with
  | (Normal a, s') => f a s'
  | (Throw msg, s') => (Throw msg, s')
  end.
Proof. reflexivity. Qed.

Lemma run_ret {A} (a : A) (s : Store) : (mret a : JS A) s = (Normal a, s).
Proof. reflexivity. Qed.

(** ** [sortIndex] *)

Lemma Map_forEach_push (index : JSMap) (indexArr : list PDFIndirectObject) :
  Map_forEach index
    (λ indexArr object ref,
       push indexArr (setReference (PDFIndirectObject_of object) ref))
    indexArr
  = indexArr ++ (unitOf <$> index).
Proof.
  unfold Map_forEach. revert indexArr.
  induction index as [|[ref object] index IH]; intros indexArr; simpl.
  - by rewrite app_nil_r.
  - rewrite IH. unfold push. by rewrite <- app_assoc.
Qed.

Lemma Array_sort_insert_Permutation {A} (comparefn : A → A → Z) (x : A)
  (sorted : list A) :
  Array_sort_insert comparefn x sorted ≡ₚ x :: sorted.
Proof.
  induction sorted as [|y rest IH]; simpl; [done|].
  destruct (comparefn x y <=? 0)%Z; [done|].
  rewrite IH. apply Permutation_swap.
Qed.

Lemma Array_sort_Permutation {A} (comparefn : A → A → Z) (array : list A) :
  Array_sort comparefn array ≡ₚ array.
Proof.
  induction array as [|x array IH]; simpl; [done|].
  by rewrite Array_sort_insert_Permutation, IH.
Qed.

Lemma Array_sort_insert_sorted (x : PDFIndirectObject)
  (sorted : list PDFIndirectObject) :
  StronglySorted objectNumber_le sorted →
  StronglySorted objectNumber_le (Array_sort_insert compareObjectNumbers x sorted).
Proof.
  induction 1 as [|y rest Hrest IH Hy]; simpl.
  - repeat constructor.
  - destruct (Z.leb_spec (compareObjectNumbers x y) 0) as [Hle|Hgt];
      unfold compareObjectNumbers in *.
    + constructor; [by constructor|].
      constructor; [unfold objectNumber_le; lia|].
      eapply Forall_impl; [exact Hy|].
      intros z. unfold objectNumber_le. lia.
    + constructor; [done|].
      rewrite Array_sort_insert_Permutation.
      constructor; [unfold objectNumber_le; lia|done].
Qed.

Lemma Array_sort_compareObjectNumbers (array : list PDFIndirectObject) :
  Array_sort compareObjectNumbers array ≡ₚ array ∧
  StronglySorted objectNumber_le (Array_sort compareObjectNumbers array).
Proof.
  split; [apply Array_sort_Permutation|].
  induction array as [|x array IH]; simpl; [constructor|].
  by apply Array_sort_insert_sorted.
Qed.

Lemma sortIndex_run (index : JSMap) (s : Store) :
  sortIndex index s =
  (Normal (Array_sort compareObjectNumbers (unitOf <$> index)), s).
Proof. unfold sortIndex. by rewrite Map_forEach_push. Qed.

(** C3. For every Object Index, [sortIndex] returns one Indirect Object
    Unit per entry of the index (the result is a permutation of the units
    of the entries, each with the reference and the object of its entry),
    in ascending order of object number, and the store, which holds the
    document and its index, is the same after the call. *)
Theorem sortIndex_sorted_units (index : JSMap) (s : Store) :
  ∃ units,
    sortIndex index s = (Normal units, s) ∧
    units ≡ₚ unitOf <$> index ∧
    length units = length index ∧
    (∀ unit, unit ∈ units ↔
       ∃ ref object, (ref, object) ∈ index ∧
         reference unit = ref ∧ pdfObject unit = object) ∧
    StronglySorted objectNumber_le units.
Proof.
  eexists. split; [apply sortIndex_run|].
  destruct (Array_sort_compareObjectNumbers (unitOf <$> index)) as [Hperm Hsorted].
  split_and!; [done| |..|done].
  - by rewrite Hperm, length_fmap.
  - intros unit. rewrite Hperm, list_elem_of_fmap. split.
    + intros ([ref object] & -> & Hin). by exists ref, object.
    + intros (ref & object & Hin & <- & <-). exists (reference unit, pdfObject unit).
      split; [by destruct unit|done].
Qed.

(** ** Views and copies *)

Lemma subarray_0 (view : Uint8Array) : subarray view 0 = view.
Proof. destruct view as [b o l]. unfold subarray; simpl. f_equal; lia. Qed.

Lemma subarray_subarray (view : Uint8Array) (n m : nat) :
  subarray (subarray view n) m = subarray view (n + m).
Proof. unfold subarray; simpl. f_equal; lia. Qed.

Lemma alter_alter {A} (f g : A → A) (i : nat) (l : list A) :
  alter f i (alter g i l) = alter (f ∘ g) i l.
Proof.
  apply list_eq. intros j. destruct (decide (i = j)) as [->|Hne].
  - rewrite !list_lookup_alter_eq. by destruct (l !! j).
  - by rewrite !list_lookup_alter_ne.
Qed.

Lemma setBytes_setBytes (view : Uint8Array) (bs1 bs2 : list byte)
  (buffers : list (list byte)) :
  setBytes (subarray view (length bs1)) bs2 (setBytes view bs1 buffers)
  = setBytes view (bs1 ++ bs2) buffers.
Proof.
  unfold setBytes. simpl. rewrite alter_alter.
  apply list_alter_ext; [|done]. intros mem _. simpl.
  destruct (decide (length bs1 ≤ byteLength view)) as [Hle|Hgt].
  - rewrite Nat.min_l by done.
    rewrite (take_ge bs1) by done.
    rewrite take_app, (take_ge bs1) by done.
    rewrite list_inserts_app_l. f_equal. lia.
  - rewrite Nat.min_r by lia. rewrite Nat.sub_diag. simpl.
    by rewrite take_app_le by lia.
Qed.

Lemma bytesOfAll_cons (w : Writable) (sections : list Writable) :
  bytesOfAll (w :: sections) = bytesOf w ++ bytesOfAll sections.
Proof. reflexivity. Qed.

Lemma bytesOfAll_app (l k : list Writable) :
  bytesOfAll (l ++ k) = bytesOfAll l ++ bytesOfAll k.
Proof. unfold bytesOfAll. by rewrite fmap_app, concat_app. Qed.

Lemma reportedSize_app (l k : list Writable) :
  reportedSize (l ++ k) = reportedSize l + reportedSize k.
Proof. apply sum_list_with_app. Qed.

Lemma reportedSize_exact (sections : list Writable) :
  SizesExact → reportedSize sections = length (bytesOfAll sections).
Proof.
  intros Hexact. induction sections as [|w sections IH]; [done|].
  rewrite bytesOfAll_cons, length_app, <- IH, <- Hexact. done.
Qed.

Lemma copies_app (l k : list Writable) (view : Uint8Array) :
  copies (l ++ k) view
  = copies l view ++ copies k (subarray view (length (bytesOfAll l))).
Proof.
  revert view. induction l as [|w l IH]; intros view; simpl.
  - by rewrite subarray_0.
  - rewrite IH, subarray_subarray. do 3 f_equal.
    by rewrite bytesOfAll_cons, length_app.
Qed.

Lemma copied_copies (sections : list Writable) (view : Uint8Array) :
  copied <$> copies sections view = sections.
Proof.
  revert view. induction sections as [|w l IH]; intros view; simpl; [done|].
  by rewrite IH.
Qed.

(** The [i]-th copy starts where the bytes of the sections before it end. *)
Lemma copies_lookup (sections : list Writable) (view : Uint8Array) (i : nat) (c : Copy) :
  copies sections view !! i = Some c →
  sections !! i = Some (copied c) ∧
  into c = subarray view (length (bytesOfAll (take i sections))) ∧
  remaining c = subarray (into c) (length (bytesOf (copied c))).
Proof.
  revert view i. induction sections as [|w l IH]; intros view i; [done|].
  destruct i as [|i]; simpl.
  - intros [= <-]. simpl. by rewrite subarray_0.
  - intros Hc. destruct (IH _ _ Hc) as (Hw & Hinto & Hrem).
    split_and!; [done| |done].
    rewrite Hinto, subarray_subarray. f_equal.
    change (w :: take i l) with ([w] ++ take i l).
    rewrite bytesOfAll_app, length_app. unfold bytesOfAll; simpl.
    by rewrite app_nil_r.
Qed.

Lemma Array_reduce_copyBytesInto {A} (f : A → Writable) (array : list A)
  (view : Uint8Array) (s : Store) :
  Array_reduce (λ remaining x, copyBytesInto (f x) remaining) array view s
  = (Normal (subarray view (length (bytesOfAll (f <$> array)))),
     {| document := document s;
        arrayBuffers := setBytes view (bytesOfAll (f <$> array)) (arrayBuffers s);
        journal := journal s ++ copies (f <$> array) view |}).
Proof.
  revert view s. induction array as [|x array IH]; intros view s.
  - simpl. rewrite run_ret, subarray_0, app_nil_r. unfold setBytes; simpl.
    change (bytesOfAll []) with (@nil byte). rewrite take_nil. simpl.
    rewrite list_alter_id by done. by destruct s.
  - simpl Array_reduce. rewrite run_bind. unfold copyBytesInto at 1.
    rewrite IH. simpl.
    rewrite subarray_subarray, setBytes_setBytes, <- app_assoc.
    by rewrite bytesOfAll_cons, length_app.
Qed.

Lemma new_Uint8Array_run (n : nat) (s : Store) :
  new_Uint8Array n s = (Normal (freshView s n), afterNew s n).
Proof. reflexivity. Qed.

Lemma copy_first (w : Writable) (view : Uint8Array) (s : Store) :
  copyBytesInto w view s
  = (Normal (subarray view (length (bytesOfAll [w]))), afterCopies s view [w]).
Proof.
  unfold copyBytesInto, afterCopies. simpl copies.
  change (bytesOfAll [w]) with (bytesOf w ++ []). by rewrite app_nil_r.
Qed.

Lemma reduce_next {A} (f : A → Writable) (array : list A) (view : Uint8Array)
  (s : Store) (done : list Writable) :
  Array_reduce (λ remaining x, copyBytesInto (f x) remaining) array
    (subarray view (length (bytesOfAll done))) (afterCopies s view done)
  = (Normal (subarray view (length (bytesOfAll (done ++ (f <$> array))))),
     afterCopies s view (done ++ (f <$> array))).
Proof.
  rewrite Array_reduce_copyBytesInto. unfold afterCopies. simpl.
  rewrite subarray_subarray, setBytes_setBytes, copies_app.
  by rewrite bytesOfAll_app, length_app, <- app_assoc.
Qed.

Lemma copy_next (w : Writable) (view : Uint8Array) (s : Store)
  (done : list Writable) :
  copyBytesInto w (subarray view (length (bytesOfAll done)))
    (afterCopies s view done)
  = (Normal (subarray view (length (bytesOfAll (done ++ [w])))),
     afterCopies s view (done ++ [w])).
Proof.
  rewrite copy_first. unfold afterCopies. simpl.
  rewrite subarray_subarray, setBytes_setBytes, copies_app.
  by rewrite bytesOfAll_app, length_app, <- app_assoc.
Qed.

(** ** What a fresh buffer shows after the copies *)

Lemma contents_fresh (s : Store) (n : nat) (sections : list Writable) :
  contents (freshView s n) (afterCopies (afterNew s n) (freshView s n) sections)
  = take n (bytesOfAll sections) ++ replicate (n - length (bytesOfAll sections)) x00.
Proof.
  unfold contents, afterCopies, afterNew, freshView, setBytes. simpl.
  rewrite list_lookup_total_alter_eq by (rewrite length_app; simpl; lia).
  rewrite list_lookup_total_middle by done.
  rewrite drop_0.
  set (bs := bytesOfAll sections).
  assert (replicate n x00
          = replicate (length (take n bs)) x00 ++ replicate (n - length bs) x00)
    as Hsplit.
  { rewrite <- replicate_add. f_equal. rewrite length_take. lia. }
  rewrite Hsplit at 1.
  rewrite list_inserts_0_r by (by rewrite length_replicate).
  rewrite take_ge; [done|].
  rewrite length_app, length_replicate, length_take. lia.
Qed.

Lemma contents_fresh_exact (s : Store) (n : nat) (sections : list Writable) :
  length (bytesOfAll sections) = n →
  contents (freshView s n) (afterCopies (afterNew s n) (freshView s n) sections)
  = bytesOfAll sections.
Proof.
  intros Hn. rewrite contents_fresh, take_ge by lia.
  rewrite Hn, Nat.sub_diag. simpl. by rewrite app_nil_r.
Qed.

(** Copying into a fresh buffer leaves the older buffers as they were. *)
Lemma contents_older (s : Store) (n : nat) (sections : list Writable)
  (view : Uint8Array) :
  buffer view < length (arrayBuffers s) →
  contents view (afterCopies (afterNew s n) (freshView s n) sections)
  = contents view s.
Proof.
  intros Hlt. unfold contents, afterCopies, afterNew, freshView, setBytes. simpl.
  rewrite list_lookup_total_alter_ne by lia.
  by rewrite lookup_total_app_l.
Qed.

(** ** The offsets of the factories *)

Lemma factory_offset (n : nat) (objects : list PDFIndirectObject) :
  foldl (λ offset o, offset + bytesSize (IndirectObject o)) n objects
  = n + reportedSize (IndirectObject <$> objects).
Proof.
  revert n. induction objects as [|o objects IH]; intros n; simpl; [lia|].
  rewrite IH. symmetry. apply Nat.add_assoc.
Qed.

Lemma reportedSize_cons (w : Writable) (sections : list Writable) :
  reportedSize (w :: sections) = bytesSize w + reportedSize sections.
Proof. reflexivity. Qed.

(** ** The two entry points, run *)

Lemma saveToBytes_throw (s : Store) :
  List.find (λ o, instanceof_PDFCatalog (pdfObject o))
    (Array_sort compareObjectNumbers (unitOf <$> index (doc_index (document s))))
  = None →
  saveToBytes s = (Throw "Missing PDFCatalog", s).
Proof.
  intros Hfind. unfold saveToBytes.
  rewrite run_bind. unfold getDocument at 1.
  rewrite run_bind, sortIndex_run, run_bind, Hfind. done.
Qed.

Lemma saveToBytes_return (s : Store) (catalog : PDFIndirectObject) :
  let pdfDoc := document s in
  let sortedIndex :=
    Array_sort compareObjectNumbers (unitOf <$> index (doc_index pdfDoc)) in
  let body := Header (header pdfDoc) :: (IndirectObject <$> sortedIndex) in
  let table := {| table_header := header pdfDoc; table_objects := sortedIndex |} in
  let trailer :=
    PDFTrailer_from (reportedSize body)
      (PDFDictionary_from
         (fromNumber (Z.of_nat (length (index (doc_index pdfDoc))) + 1))
         (reference catalog) (doc_index pdfDoc)) in
  let sections := body ++ [XRefTable table; Trailer trailer] in
  let n := reportedSize sections in
  List.find (λ o, instanceof_PDFCatalog (pdfObject o)) sortedIndex = Some catalog →
  saveToBytes s
  = (Normal (freshView s n),
     afterCopies (afterNew s n) (freshView s n) sections).
Proof.
  intros pdfDoc sortedIndex body table trailer sections n Hfind.
  assert (length sortedIndex = length (index (doc_index pdfDoc))) as Hlen.
  { unfold sortedIndex.
    destruct (Array_sort_compareObjectNumbers (unitOf <$> index (doc_index pdfDoc)))
      as [Hperm _].
    by rewrite Hperm, length_fmap. }
  unfold saveToBytes.
  rewrite run_bind. unfold getDocument at 1.
  rewrite run_bind, sortIndex_run, run_bind.
  fold pdfDoc sortedIndex. rewrite Hfind, run_ret.
  unfold PDFXRefTableFactory_forIndirectObjects.
  rewrite factory_offset, Hlen.
  change (bytesSize (Header (header pdfDoc))
          + reportedSize (IndirectObject <$> sortedIndex))
    with (reportedSize body).
  fold table trailer.
  replace (reportedSize body + bytesSize (XRefTable table)
           + bytesSize (Trailer trailer)) with n.
  2:{ unfold n, sections. rewrite reportedSize_app.
      rewrite (reportedSize_cons (XRefTable table)).
      rewrite (reportedSize_cons (Trailer trailer)).
      change (reportedSize []) with 0. lia. }
  rewrite run_bind, new_Uint8Array_run.
  rewrite run_bind, copy_first.
  rewrite run_bind, reduce_next.
  rewrite run_bind, copy_next.
  rewrite run_bind, copy_next.
  rewrite run_ret. unfold sections, body. simpl. by rewrite <- !app_assoc.
Qed.

Lemma scanIndex_run (index : JSMap) :
  scanIndex index
  = (fst <$> last (catalogs index),
     unitOf <$> streams index,
     unitOf <$> nonStreams index).
Proof.
  unfold scanIndex, Map_forEach.
  enough (∀ pdfCatalogRef streamObjects nonStreamObjects,
    foldl (λ acc entry,
             (λ '(pdfCatalogRef, streamObjects, nonStreamObjects) object ref,
                let pdfCatalogRef :=
                  if instanceof_PDFCatalog object then Some ref
                  else pdfCatalogRef in
                if instanceof_PDFStream object
                then (pdfCatalogRef,
                      push streamObjects
                        (setReference (PDFIndirectObject_of object) ref),
                      nonStreamObjects)
                else (pdfCatalogRef, streamObjects,
                      push nonStreamObjects
                        (setReference (PDFIndirectObject_of object) ref)))
               acc entry.2 entry.1)
      (pdfCatalogRef, streamObjects, nonStreamObjects) index
    = (match last (catalogs index) with
       | Some entry => Some entry.1
       | None => pdfCatalogRef
       end,
       streamObjects ++ (unitOf <$> streams index),
       nonStreamObjects ++ (unitOf <$> nonStreams index))) as Hgen.
  { rewrite Hgen. by destruct (last (catalogs index)). }
  induction index as [|[ref object] index IH]; intros c ss ns.
  - simpl. by rewrite !app_nil_r.
  - simpl foldl. unfold catalogs, streams, nonStreams in *.
    rewrite !filter_cons. simpl.
    destruct (instanceof_PDFCatalog object), (instanceof_PDFStream object);
      simpl; rewrite IH; unfold push; rewrite <- ?app_assoc; simpl;
      rewrite ?last_cons; f_equal; try f_equal;
      by destruct (last _).
Qed.

Lemma saveToBytesWithObjectStreams_throw (s : Store) :
  catalogs (index (doc_index (document s))) = [] →
  saveToBytesWithObjectStreams s = (Throw "Missing PDFCatalog", s).
Proof.
  intros Hnone. unfold saveToBytesWithObjectStreams.
  rewrite run_bind. unfold getDocument at 1.
  rewrite scanIndex_run, Hnone. done.
Qed.

Lemma saveToBytesWithObjectStreams_return (s : Store)
  (entry : PDFIndirectReference * PDFObject) :
  let pdfDoc := document s in
  let objectStreamIndObj :=
    {| pdfObject :=
         PDFObjectStream_create_encode (doc_index pdfDoc)
           (unitOf <$> nonStreams (index (doc_index pdfDoc)));
       reference := forNumbers (Number_add (maxObjNum pdfDoc) 1) 0 |} in
  let streamObjects :=
    (unitOf <$> streams (index (doc_index pdfDoc))) ++ [objectStreamIndObj] in
  let body := Header (header pdfDoc) :: (IndirectObject <$> streamObjects) in
  let xrefStream :=
    {| xref_header := header pdfDoc; xref_objects := streamObjects;
       xref_objectStream := objectStreamIndObj;
       xref_index := doc_index pdfDoc; xref_root := entry.1 |} in
  let trailer := PDFTrailerX_from (reportedSize body) in
  let sections := body ++ [XRefStream xrefStream; TrailerX trailer] in
  let n := reportedSize sections in
  last (catalogs (index (doc_index pdfDoc))) = Some entry →
  saveToBytesWithObjectStreams s
  = (Normal (freshView s n),
     afterCopies (afterNew s n) (freshView s n) sections).
Proof.
  intros pdfDoc objectStreamIndObj streamObjects body xrefStream trailer
    sections n Hlast.
  unfold saveToBytesWithObjectStreams.
  rewrite run_bind. unfold getDocument at 1.
  fold pdfDoc. rewrite scanIndex_run, Hlast. simpl fmap.
  rewrite run_bind, run_ret.
  unfold PDFXRefStreamFactory_forIndirectObjects, push, setReference,
    PDFIndirectObject_of.
  simpl pdfObject.
  fold objectStreamIndObj. fold streamObjects.
  rewrite factory_offset.
  change (bytesSize (Header (header pdfDoc))
          + reportedSize (IndirectObject <$> streamObjects))
    with (reportedSize body).
  fold xrefStream. fold trailer.
  replace (reportedSize body + bytesSize (XRefStream xrefStream)
           + bytesSize (TrailerX trailer)) with n.
  2:{ unfold n, sections. rewrite reportedSize_app.
      rewrite (reportedSize_cons (XRefStream xrefStream)).
      rewrite (reportedSize_cons (TrailerX trailer)).
      change (reportedSize []) with 0. lia. }
  rewrite run_bind, new_Uint8Array_run.
  rewrite run_bind, copy_first.
  rewrite run_bind, reduce_next.
  rewrite run_bind, copy_next.
  rewrite run_bind, copy_next.
  rewrite run_ret. unfold sections, body. simpl. by rewrite <- !app_assoc.
Qed.

(** ** The Catalog the two paths find *)

Lemma unitOf_elem_of (index : JSMap) (unit : PDFIndirectObject) :
  unit ∈ unitOf <$> index ↔ (reference unit, pdfObject unit) ∈ index.
Proof.
  rewrite list_elem_of_fmap. split.
  - intros ([ref object] & -> & Hin). done.
  - intros Hin. exists (reference unit, pdfObject unit). by destruct unit.
Qed.

Lemma sorted_elem_of (index : JSMap) (unit : PDFIndirectObject) :
  unit ∈ Array_sort compareObjectNumbers (unitOf <$> index)
  ↔ (reference unit, pdfObject unit) ∈ index.
Proof.
  destruct (Array_sort_compareObjectNumbers (unitOf <$> index)) as [Hperm _].
  by rewrite Hperm, unitOf_elem_of.
Qed.

Lemma find_catalog_None (index : JSMap) :
  List.find (λ o, instanceof_PDFCatalog (pdfObject o))
    (Array_sort compareObjectNumbers (unitOf <$> index)) = None
  ↔ catalogs index = [].
Proof.
  split.
  - intros Hfind. apply elem_of_nil_inv. intros [ref object] Hin.
    apply list_elem_of_filter in Hin as [Hcat Hin]. simpl in Hcat.
    pose proof (find_none _ _ Hfind {| pdfObject := object; reference := ref |})
      as Hfalse.
    simpl in Hfalse. rewrite Hfalse in Hcat; [done|].
    apply list_elem_of_In, sorted_elem_of. done.
  - intros Hnone.
    destruct (List.find _ _) as [unit|] eqn:Hfind; [|done].
    apply find_some in Hfind as [Hin Hcat].
    apply list_elem_of_In, sorted_elem_of in Hin.
    assert ((reference unit, pdfObject unit) ∈ catalogs index) as Hc.
    { apply list_elem_of_filter. split; [|done]. simpl. by rewrite Hcat. }
    rewrite Hnone in Hc. by apply not_elem_of_nil in Hc.
Qed.

(** The first element of a sorted array that passes a test comes before
    every element that passes it. *)
Lemma find_first_least (f : PDFIndirectObject → bool)
  (array : list PDFIndirectObject) (first : PDFIndirectObject) :
  StronglySorted objectNumber_le array →
  List.find f array = Some first →
  ∀ other, other ∈ array → f other = true → objectNumber_le first other.
Proof.
  induction 1 as [|a l Hl IH Hall]; [done|]. simpl.
  destruct (f a) eqn:Hfa.
  - intros [= <-] other Hin _.
    apply elem_of_cons in Hin as [->|Hin].
    + unfold objectNumber_le. lia.
    + rewrite Forall_forall in Hall. by apply Hall.
  - intros Hfind other Hin Hother.
    apply elem_of_cons in Hin as [->|Hin]; [congruence|].
    by apply IH.
Qed.

Lemma catalogs_nil_length (index : JSMap) :
  length (catalogs index) = 0 ↔ catalogs index = [].
Proof. by destruct (catalogs index). Qed.

(** C1. For every store whose document has an index with zero Catalog
    objects, [saveToBytes] and [saveToBytesWithObjectStreams] both throw
    the error with the message 'Missing PDFCatalog' and leave the store as
    it was: no array buffer has been allocated, nothing has been copied,
    and no buffer is returned. *)
Theorem missing_catalog_throws (s : Store) :
  length (catalogs (index (doc_index (document s)))) = 0 →
  saveToBytes s = (Throw "Missing PDFCatalog", s) ∧
  saveToBytesWithObjectStreams s = (Throw "Missing PDFCatalog", s).
Proof.
  intros Hnone%catalogs_nil_length. split.
  - by apply saveToBytes_throw, find_catalog_None.
  - by apply saveToBytesWithObjectStreams_throw.
Qed.

(** ** Reading the journal *)

Lemma sectionsWritten_afterCopies (s : Store) (n : nat) (view : Uint8Array)
  (sections : list Writable) :
  sectionsWritten (afterCopies (afterNew s n) view sections)
  = sectionsWritten s ++ sections.
Proof.
  unfold sectionsWritten, afterCopies, afterNew. simpl.
  by rewrite fmap_app, copied_copies.
Qed.

Lemma omap_fmap_None {A B C} (g : B → option C) (h : A → B) (l : list A) :
  (∀ x, g (h x) = None) → omap g (h <$> l) = [].
Proof.
  intros Hg. induction l as [|x l IH]; [done|].
  csimpl. by rewrite Hg.
Qed.

Lemma omap_fmap_Some {A B} (g : B → option A) (h : A → B) (l : list A) :
  (∀ x, g (h x) = Some x) → omap g (h <$> l) = l.
Proof.
  intros Hg. induction l as [|x l IH]; [done|].
  csimpl. by rewrite Hg, IH.
Qed.

Lemma catalogs_find (index : JSMap) :
  0 < length (catalogs index) →
  ∃ catalog lastEntry,
    List.find (λ o, instanceof_PDFCatalog (pdfObject o))
      (Array_sort compareObjectNumbers (unitOf <$> index)) = Some catalog ∧
    last (catalogs index) = Some lastEntry.
Proof.
  intros Hpos.
  destruct (List.find _ _) as [catalog|] eqn:Hfind.
  - destruct (last (catalogs index)) as [lastEntry|] eqn:Hlast; [by eauto|].
    apply last_None in Hlast. rewrite Hlast in Hpos. simpl in Hpos. lia.
  - apply find_catalog_None in Hfind. rewrite Hfind in Hpos. simpl in Hpos. lia.
Qed.

(** C2. For every store whose document has an index with a Catalog,
    [saveToBytes] returns, and the trailer it writes (the last section
    copied) has a dictionary whose [Size] is the number of entries of the
    index plus one and whose [Root] is the reference of the Catalog that
    [find] returns on the sorted sequence. *)
Theorem saveToBytes_trailer_dictionary (s : Store) :
  0 < length (catalogs (index (doc_index (document s)))) →
  ∃ result s' sortedIndex catalog trailer,
    saveToBytes s = (Normal result, s') ∧
    sortIndex (index (doc_index (document s))) s = (Normal sortedIndex, s) ∧
    List.find (λ o, instanceof_PDFCatalog (pdfObject o)) sortedIndex
      = Some catalog ∧
    trailersWritten s' = trailersWritten s ++ [trailer] ∧
    last (sectionsWritten s') = Some (Trailer trailer) ∧
    Size (trailer_dictionary trailer)
      = fromNumber (Z.of_nat (length (index (doc_index (document s)))) + 1) ∧
    Root (trailer_dictionary trailer) = reference catalog.
Proof.
  intros Hpos. destruct (catalogs_find _ Hpos) as (catalog & _ & Hfind & _).
  do 5 eexists.
  split; [by apply saveToBytes_return|].
  split; [apply sortIndex_run|].
  split; [exact Hfind|].
  unfold trailersWritten. rewrite sectionsWritten_afterCopies.
  split_and!.
  - rewrite omap_app. f_equal. csimpl. rewrite omap_app. csimpl.
    by rewrite omap_fmap_None.
  - by rewrite !last_app.
  - done.
  - done.
Qed.

(** ** Exact sizing *)

Lemma reportedSize_take_le (sections : list Writable) (i : nat) :
  reportedSize (take i sections) ≤ reportedSize sections.
Proof.
  rewrite <- (take_drop i sections) at 2. rewrite reportedSize_app. lia.
Qed.

Lemma subarray_freshView (s : Store) (n k : nat) :
  k ≤ n →
  subarray (freshView s n) k
  = {| buffer := length (arrayBuffers s); byteOffset := k; byteLength := n - k |}.
Proof. intros Hk. unfold subarray, freshView. simpl. f_equal; lia. Qed.

(** When the sizes are exact and the buffer has the size the sections
    report, the copies fill it back to back. *)
Lemma exact_layout (s : Store) (sections : list Writable) :
  SizesExact → sections ≠ [] →
  let n := reportedSize sections in
  let result := freshView s n in
  let s' := afterCopies (afterNew s n) result sections in
  ∃ written : list Copy,
    journal s' = journal s ++ written ∧
    copied <$> written = sections ∧
    BackToBack result written ∧
    length (contents result s') = byteLength result ∧
    contents result s' = bytesOfAll (copied <$> written).
Proof.
  intros Hexact Hne n result s'.
  exists (copies sections result).
  assert (∀ i c, copies sections result !! i = Some c →
    into c
    = {| buffer := buffer result;
         byteOffset := reportedSize (copied <$> take i (copies sections result));
         byteLength :=
           byteLength result
           - reportedSize (copied <$> take i (copies sections result)) |} ∧
    remaining c
    = {| buffer := buffer result;
         byteOffset := reportedSize (copied <$> take (S i) (copies sections result));
         byteLength :=
           byteLength result
           - reportedSize (copied <$> take (S i) (copies sections result)) |})
    as Heach.
  { intros i c Hc. rewrite !fmap_take, copied_copies.
    destruct (copies_lookup _ _ _ _ Hc) as (Hw & Hinto & Hrem).
    pose proof (reportedSize_take_le sections i) as Hi.
    pose proof (reportedSize_take_le sections (S i)) as HSi.
    rewrite (take_S_r _ _ _ Hw) in *.
    rewrite reportedSize_app, reportedSize_cons in *.
    change (reportedSize []) with 0 in *.
    rewrite Hrem, Hinto, subarray_subarray.
    rewrite <- (reportedSize_exact (take i sections)) by done.
    rewrite <- Hexact.
    unfold result. rewrite !subarray_freshView by (fold n; lia).
    simpl. split; f_equal; lia. }
  assert (contents result s' = bytesOfAll sections) as Hcontents.
  { apply contents_fresh_exact. symmetry. by apply reportedSize_exact. }
  split; [done|]. split; [apply copied_copies|].
  split; [|by rewrite Hcontents, copied_copies, <- reportedSize_exact].
  unfold BackToBack.
  split_and!; [done|by rewrite copied_copies|done|].
  rewrite last_lookup.
  assert (length (copies sections result) = length sections) as Hlen.
  { by rewrite <- (copied_copies sections result) at 2; rewrite length_fmap. }
  assert (0 < length sections) as Hpos by (destruct sections; [done|simpl; lia]).
  destruct (lookup_lt_is_Some_2 (copies sections result)
              (pred (length (copies sections result)))) as [c Hc]; [lia|].
  rewrite Hc. simpl. f_equal.
  destruct (Heach _ _ Hc) as [_ ->].
  rewrite take_ge by lia. rewrite copied_copies.
  fold n. simpl. f_equal. lia.
Qed.

(** Names [sections] the list of sections in the equation of a run. *)
Ltac name_sections H :=
  match type of H with
  | _ = (_, afterCopies _ _ ?l) => set (sections := l) in *
  end.

(** C4. If every collaborator reports as its size the number of bytes it
    copies, then for every call of [saveToBytes] or
    [saveToBytesWithObjectStreams] that returns a buffer: the sections
    copied during the call are the header, the body units, the
    cross-reference table or stream, and the trailer; the length of the
    buffer is the sum of the sizes they report; each of them is copied at
    the offset where the ones before it end; after the last copy the
    remaining view is the empty view at the end of the buffer; and the
    buffer shows exactly their bytes one after the other. *)
Theorem exact_sizing (s : Store) :
  SizesExact →
  (∀ result s',
     saveToBytes s = (Normal result, s') →
     ∃ written sortedIndex table trailer,
       journal s' = journal s ++ written ∧
       sortIndex (index (doc_index (document s))) s = (Normal sortedIndex, s) ∧
       copied <$> written
       = Header (header (document s)) :: (IndirectObject <$> sortedIndex)
         ++ [XRefTable table; Trailer trailer] ∧
       BackToBack result written ∧
       length (contents result s') = byteLength result ∧
       contents result s' = bytesOfAll (copied <$> written)) ∧
  (∀ result s',
     saveToBytesWithObjectStreams s = (Normal result, s') →
     ∃ written objectStream xrefStream trailer,
       journal s' = journal s ++ written ∧
       copied <$> written
       = Header (header (document s))
         :: (IndirectObject
               <$> (unitOf <$> streams (index (doc_index (document s))))
                   ++ [objectStream])
         ++ [XRefStream xrefStream; TrailerX trailer] ∧
       BackToBack result written ∧
       length (contents result s') = byteLength result ∧
       contents result s' = bytesOfAll (copied <$> written)).
Proof.
  intros Hexact. split; intros result s' Hrun.
  - destruct (List.find (λ o, instanceof_PDFCatalog (pdfObject o))
                (Array_sort compareObjectNumbers
                   (unitOf <$> index (doc_index (document s)))))
      as [catalog|] eqn:Hfind;
      [|by rewrite (saveToBytes_throw s Hfind) in Hrun].
    pose proof (saveToBytes_return s catalog Hfind) as Hret.
    cbv zeta in Hret. name_sections Hret.
    rewrite Hret in Hrun. injection Hrun as <- <-.
    destruct (exact_layout s sections Hexact)
      as (written & Hjournal & Hcopied & Hlayout & Hlength & Hcontents); [done|].
    exists written. do 3 eexists.
    split; [exact Hjournal|]. split; [apply sortIndex_run|].
    split; [exact Hcopied|]. done.
  - destruct (last (catalogs (index (doc_index (document s)))))
      as [entry|] eqn:Hlast.
    2:{ apply last_None in Hlast.
        by rewrite (saveToBytesWithObjectStreams_throw s Hlast) in Hrun. }
    pose proof (saveToBytesWithObjectStreams_return s entry Hlast) as Hret.
    cbv zeta in Hret. name_sections Hret.
    rewrite Hret in Hrun. injection Hrun as <- <-.
    destruct (exact_layout s sections Hexact)
      as (written & Hjournal & Hcopied & Hlayout & Hlength & Hcontents); [done|].
    exists written. do 3 eexists.
    split; [exact Hjournal|]. split; [exact Hcopied|]. done.
Qed.

(** ** The compact path *)

Lemma copies_chain (sections : list Writable) (view : Uint8Array) (i : nat)
  (c c' : Copy) :
  copies sections view !! i = Some c →
  copies sections view !! S i = Some c' →
  into c' = remaining c.
Proof.
  intros Hc Hc'.
  destruct (copies_lookup _ _ _ _ Hc) as (Hw & Hinto & Hrem).
  destruct (copies_lookup _ _ _ _ Hc') as (_ & Hinto' & _).
  rewrite Hinto', Hrem, Hinto, subarray_subarray.
  rewrite (take_S_r _ _ _ Hw), bytesOfAll_app, length_app.
  do 2 f_equal. unfold bytesOfAll. simpl. by rewrite app_nil_r.
Qed.

Lemma objectsWritten_compact (s : Store) (n : nat) (view : Uint8Array)
  (h : PDFHeader) (objects : list PDFIndirectObject) (x : PDFXRefStream)
  (t : PDFTrailerX) :
  objectsWritten
    (afterCopies (afterNew s n) view
       ((Header h :: (IndirectObject <$> objects)) ++ [XRefStream x; TrailerX t]))
  = objectsWritten s ++ objects.
Proof.
  unfold objectsWritten. rewrite sectionsWritten_afterCopies.
  rewrite !omap_app. csimpl. rewrite omap_fmap_Some by done.
  by rewrite app_nil_r.
Qed.

Lemma xrefStreamsWritten_compact (s : Store) (n : nat) (view : Uint8Array)
  (h : PDFHeader) (objects : list PDFIndirectObject) (x : PDFXRefStream)
  (t : PDFTrailerX) :
  xrefStreamsWritten
    (afterCopies (afterNew s n) view
       ((Header h :: (IndirectObject <$> objects)) ++ [XRefStream x; TrailerX t]))
  = xrefStreamsWritten s ++ [x].
Proof.
  unfold xrefStreamsWritten. rewrite sectionsWritten_afterCopies.
  rewrite !omap_app. csimpl. by rewrite omap_fmap_None.
Qed.

(** Below [2^53] adding one is exact. *)
Lemma Number_add_exact (n : Z) :
  (- 2 ^ 53 ≤ n < 2 ^ 53)%Z → Number_add n 1 = (n + 1)%Z.
Proof.
  intros Hn. unfold Number_add, Number_round.
  destruct (Z.ltb_spec (Z.abs (n + 1)) (2 ^ 53)) as [Hlt|Hge]; [done|].
  assert (n + 1 = 2 ^ 53)%Z as -> by lia. reflexivity.
Qed.

(** C5, amended. For every store whose document has an index with a
    Catalog, [saveToBytesWithObjectStreams] returns; the Object Stream it
    makes from the non-stream units has the reference [(maxObjNum + 1, 0)],
    the sum being the sum of the language, which is [maxObjNum + 1] when
    [maxObjNum] is below [2^53]; its unit is the last element of the
    stream-objects sequence (the one given to the cross-reference factory
    and written in the body).  The writer does not compare [maxObjNum]
    with the index: for [maxObjNum] below [2^53], the object number of the
    Object Stream is above every object number of the index exactly when
    [maxObjNum] is at least every object number of the index. *)
Theorem objectStream_reference (s : Store) :
  0 < length (catalogs (index (doc_index (document s)))) →
  ∃ result s' objectStream xrefStream,
    saveToBytesWithObjectStreams s = (Normal result, s') ∧
    pdfObject objectStream
    = PDFObjectStream_create_encode (doc_index (document s))
        (unitOf <$> nonStreams (index (doc_index (document s)))) ∧
    reference objectStream
    = forNumbers (Number_add (maxObjNum (document s)) 1) 0 ∧
    ((- 2 ^ 53 ≤ maxObjNum (document s) < 2 ^ 53)%Z →
     reference objectStream = forNumbers (maxObjNum (document s) + 1) 0) ∧
    xrefStreamsWritten s' = xrefStreamsWritten s ++ [xrefStream] ∧
    xref_objects xrefStream
    = (unitOf <$> streams (index (doc_index (document s)))) ++ [objectStream] ∧
    xref_objectStream xrefStream = objectStream ∧
    last (xref_objects xrefStream) = Some objectStream ∧
    objectsWritten s' = objectsWritten s ++ xref_objects xrefStream ∧
    last (objectsWritten s') = Some objectStream ∧
    ((- 2 ^ 53 ≤ maxObjNum (document s) < 2 ^ 53)%Z →
     (∀ entry, entry ∈ index (doc_index (document s)) →
        (objectNumber entry.1 < objectNumber (reference objectStream))%Z)
     ↔ (∀ entry, entry ∈ index (doc_index (document s)) →
          (objectNumber entry.1 ≤ maxObjNum (document s))%Z)).
Proof.
  intros Hpos. destruct (catalogs_find _ Hpos) as (_ & entry & _ & Hlast).
  do 4 eexists.
  split; [by apply saveToBytesWithObjectStreams_return|].
  rewrite objectsWritten_compact, xrefStreamsWritten_compact. simpl.
  split_and!; try done. all: try done.
  - intros Hrange. by rewrite Number_add_exact.
  - apply last_snoc.
  - by rewrite !last_app.
  - intros Hrange. simpl. rewrite Number_add_exact by done.
    split; intros Hall e He; specialize (Hall e He); lia.
Qed.

Lemma unitOf_inj (entry entry' : PDFIndirectReference * PDFObject) :
  unitOf entry = unitOf entry' → entry = entry'.
Proof. destruct entry, entry'. unfold unitOf. simpl. by intros [= -> ->]. Qed.

(** C6. The scan of [saveToBytesWithObjectStreams] puts the unit of every
    entry of the index in exactly one of the two sequences: in
    [streamObjects] when its object is a [PDFStream], in
    [nonStreamObjects] otherwise; together the two sequences are a
    permutation of the units of the index.  When the index has a Catalog
    the call returns, the Object Stream is made from [nonStreamObjects],
    the body written is [streamObjects] followed by the Object Stream,
    which is one more element than the index has streams, and the two
    sequences together have one more element than the index. *)
Theorem partition_complete (s : Store) :
  ∃ pdfCatalogRef streamObjects nonStreamObjects,
    scanIndex (index (doc_index (document s)))
    = (pdfCatalogRef, streamObjects, nonStreamObjects) ∧
    streamObjects = unitOf <$> streams (index (doc_index (document s))) ∧
    nonStreamObjects = unitOf <$> nonStreams (index (doc_index (document s))) ∧
    streamObjects ++ nonStreamObjects
      ≡ₚ unitOf <$> index (doc_index (document s)) ∧
    (∀ entry, entry ∈ index (doc_index (document s)) →
       if instanceof_PDFStream entry.2
       then unitOf entry ∈ streamObjects ∧ unitOf entry ∉ nonStreamObjects
       else unitOf entry ∈ nonStreamObjects ∧ unitOf entry ∉ streamObjects) ∧
    (0 < length (catalogs (index (doc_index (document s)))) →
     ∃ result s' objectStream,
       saveToBytesWithObjectStreams s = (Normal result, s') ∧
       pdfObject objectStream
       = PDFObjectStream_create_encode (doc_index (document s)) nonStreamObjects ∧
       objectsWritten s' = objectsWritten s ++ streamObjects ++ [objectStream] ∧
       length (streamObjects ++ [objectStream])
       = length (streams (index (doc_index (document s)))) + 1 ∧
       length (streamObjects ++ [objectStream]) + length nonStreamObjects
       = length (index (doc_index (document s))) + 1).
Proof.
  do 3 eexists. split; [apply scanIndex_run|].
  split; [done|]. split; [done|].
  set (idx := index (doc_index (document s))).
  assert ((unitOf <$> streams idx) ++ (unitOf <$> nonStreams idx)
          ≡ₚ unitOf <$> idx) as Hperm.
  { rewrite <- fmap_app. unfold streams, nonStreams.
    by rewrite filter_app_complement. }
  split_and!; [done| |].
  - intros entry Hin. unfold streams, nonStreams.
    destruct (instanceof_PDFStream entry.2) eqn:Hstream.
    + split.
      * apply list_elem_of_fmap_2, list_elem_of_filter.
        split; [rewrite Hstream; exact I|exact Hin].
      * intros (entry' & Heq%unitOf_inj & Hin')%list_elem_of_fmap.
        subst entry'. apply list_elem_of_filter in Hin' as [Hnot _].
        apply Hnot. rewrite Hstream. exact I.
    + split.
      * apply list_elem_of_fmap_2, list_elem_of_filter.
        split; [rewrite Hstream; intros []|exact Hin].
      * intros (entry' & Heq%unitOf_inj & Hin')%list_elem_of_fmap.
        subst entry'. apply list_elem_of_filter in Hin' as [Hyes _].
        by rewrite Hstream in Hyes.
  - intros Hpos. destruct (catalogs_find _ Hpos) as (_ & entry & _ & Hlast).
    do 3 eexists.
    split; [by apply saveToBytesWithObjectStreams_return|].
    rewrite objectsWritten_compact. simpl.
    split_and!; try done. all: try done.
    { by rewrite length_app, length_fmap. }
    apply Permutation_length in Hperm.
    rewrite !length_app, !length_fmap in *. simpl. fold idx. lia.
Qed.

(** C7. For every store whose document has an index with a Catalog,
    [saveToBytesWithObjectStreams] returns after copying, in this order:
    the header, every element of the stream-objects sequence (the streams
    of the index in iteration order, then the Object Stream), the
    cross-reference stream, and the pointer trailer; every copy starts
    where the one before it stopped.  The cross-reference stream is copied
    once, and the stream-objects sequence (the one its factory was given)
    holds the streams of the index and the Object Stream and nothing else.
    The Object Stream, last in that sequence, is the one the factory is
    given as such: it is made from the non-stream units of the index and
    has the reference [(maxObjNum + 1, 0)] (the sum of the language).  The
    cross-reference stream is made for the header and the index of the
    document with the last Catalog of the index as root, and the pointer
    trailer holds the offset the factory returned.  When the sizes are
    exact the buffer shows the bytes in that order. *)
Theorem compact_file_order (s : Store) :
  0 < length (catalogs (index (doc_index (document s)))) →
  ∃ result s' objectStream xrefStream trailer written,
    let streamObjects :=
      (unitOf <$> streams (index (doc_index (document s)))) ++ [objectStream] in
    saveToBytesWithObjectStreams s = (Normal result, s') ∧
    journal s' = journal s ++ written ∧
    copied <$> written
    = [Header (header (document s))] ++ (IndirectObject <$> streamObjects)
      ++ [XRefStream xrefStream; TrailerX trailer] ∧
    (∀ c, head written = Some c → into c = result) ∧
    (∀ i c c', written !! i = Some c → written !! S i = Some c' →
       into c' = remaining c) ∧
    xrefStreamsWritten s' = xrefStreamsWritten s ++ [xrefStream] ∧
    xref_objects xrefStream = streamObjects ∧
    length streamObjects
    = length (streams (index (doc_index (document s)))) + 1 ∧
    last streamObjects = Some objectStream ∧
    objectsWritten s' = objectsWritten s ++ streamObjects ∧
    xref_objectStream xrefStream = objectStream ∧
    pdfObject objectStream
    = PDFObjectStream_create_encode (doc_index (document s))
        (unitOf <$> nonStreams (index (doc_index (document s)))) ∧
    reference objectStream
    = forNumbers (Number_add (maxObjNum (document s)) 1) 0 ∧
    xref_header xrefStream = header (document s) ∧
    xref_index xrefStream = doc_index (document s) ∧
    fst <$> last (catalogs (index (doc_index (document s))))
    = Some (xref_root xrefStream) ∧
    trailerX_offset trailer
    = reportedSize
        (Header (header (document s)) :: (IndirectObject <$> streamObjects)) ∧
    (SizesExact →
     contents result s'
     = bytesOf (Header (header (document s)))
       ++ bytesOfAll (IndirectObject <$> streamObjects)
       ++ bytesOf (XRefStream xrefStream) ++ bytesOf (TrailerX trailer)).
Proof.
  intros Hpos. destruct (catalogs_find _ Hpos) as (_ & entry & _ & Hlast).
  pose proof (saveToBytesWithObjectStreams_return s entry Hlast) as Hret.
  cbv zeta in Hret. name_sections Hret.
  eexists _, _, _, _, _, (copies sections _). cbv zeta.
  split; [exact Hret|].
  split; [done|].
  split; [by rewrite copied_copies|].
  split; [by intros c [= <-]|].
  split; [by apply copies_chain|].
  split; [apply xrefStreamsWritten_compact|].
  split; [done|].
  split; [by rewrite length_app, length_fmap|].
  split; [apply last_snoc|].
  split; [apply objectsWritten_compact|].
  split; [done|]. split; [done|]. split; [done|].
  split; [done|]. split; [done|].
  split; [by rewrite Hlast|]. split; [done|].
  intros Hexact. rewrite contents_fresh_exact.
  - unfold sections. rewrite bytesOfAll_app, bytesOfAll_cons.
    rewrite <- app_assoc. do 2 f_equal.
    unfold bytesOfAll. simpl. by rewrite app_nil_r.
  - symmetry. by apply reportedSize_exact.
Qed.

(** ** One shape for both entry points *)

Lemma entry_point_shape (entry : JS Uint8Array) :
  entry = saveToBytes ∨ entry = saveToBytesWithObjectStreams →
  ∃ plan : PDFDocument → option (list Writable),
    ∀ s,
      entry s
      = match plan (document s) with
        | None => (Throw "Missing PDFCatalog", s)
        | Some sections =>
            (Normal (freshView s (reportedSize sections)),
             afterCopies (afterNew s (reportedSize sections))
               (freshView s (reportedSize sections)) sections)
        end.
Proof.
  intros [-> | ->].
  - exists (λ pdfDoc,
      let sortedIndex :=
        Array_sort compareObjectNumbers (unitOf <$> index (doc_index pdfDoc)) in
      let body := Header (header pdfDoc) :: (IndirectObject <$> sortedIndex) in
      catalog ← List.find (λ o, instanceof_PDFCatalog (pdfObject o)) sortedIndex;
      Some (body ++
            [XRefTable {| table_header := header pdfDoc;
                          table_objects := sortedIndex |};
             Trailer
               (PDFTrailer_from (reportedSize body)
                  (PDFDictionary_from
                     (fromNumber
                        (Z.of_nat (length (index (doc_index pdfDoc))) + 1))
                     (reference catalog) (doc_index pdfDoc)))])).
    intros s. cbv zeta.
    destruct (List.find _ _) as [catalog|] eqn:Hfind; simpl.
    + by apply saveToBytes_return.
    + by apply saveToBytes_throw.
  - exists (λ pdfDoc,
      let objectStreamIndObj :=
        {| pdfObject :=
             PDFObjectStream_create_encode (doc_index pdfDoc)
               (unitOf <$> nonStreams (index (doc_index pdfDoc)));
           reference := forNumbers (Number_add (maxObjNum pdfDoc) 1) 0 |} in
      let streamObjects :=
        (unitOf <$> streams (index (doc_index pdfDoc))) ++ [objectStreamIndObj] in
      let body := Header (header pdfDoc) :: (IndirectObject <$> streamObjects) in
      entry ← last (catalogs (index (doc_index pdfDoc)));
      Some (body ++
            [XRefStream {| xref_header := header pdfDoc;
                           xref_objects := streamObjects;
                           xref_objectStream := objectStreamIndObj;
                           xref_index := doc_index pdfDoc;
                           xref_root := entry.1 |};
             TrailerX (PDFTrailerX_from (reportedSize body))])).
    intros s. cbv zeta.
    destruct (last _) as [entry|] eqn:Hlast; simpl.
    + by apply saveToBytesWithObjectStreams_return.
    + apply saveToBytesWithObjectStreams_throw. by apply last_None.
Qed.

(** C8. Each entry point gives an output (the bytes of the buffer it
    returns, or the error it throws) that is the same in any two stores
    that hold the same document; and when it is called twice in a row the
    second call returns a buffer with the same bytes as the first, which
    the second call has left as it was (or throws the same error). *)
Theorem entry_points_deterministic (entry : JS Uint8Array) :
  entry = saveToBytes ∨ entry = saveToBytesWithObjectStreams →
  (∀ s1 s2, document s1 = document s2 → output entry s1 = output entry s2) ∧
  (∀ s,
     match entry s with
     | (Normal first, s1) =>
         ∃ second s2,
           entry s1 = (Normal second, s2) ∧
           contents second s2 = contents first s1 ∧
           contents first s2 = contents first s1
     | (Throw msg, s1) => entry s1 = (Throw msg, s1)
     end).
Proof.
  intros [plan Hplan]%entry_point_shape. split.
  - intros s1 s2 Hdoc. unfold output. rewrite !Hplan, Hdoc.
    destruct (plan (document s2)) as [sections|]; [|done].
    by rewrite !contents_fresh.
  - intros s. rewrite (Hplan s).
    destruct (plan (document s)) as [sections|] eqn:Hsections.
    + set (n := reportedSize sections).
      set (s1 := afterCopies (afterNew s n) (freshView s n) sections).
      assert (document s1 = document s) as Hdoc by done.
      eexists _, _. split.
      { rewrite (Hplan s1), Hdoc, Hsections. done. }
      fold n. split.
      * rewrite contents_fresh. unfold s1. by rewrite contents_fresh.
      * apply contents_older. unfold s1, afterCopies, afterNew, setBytes. simpl.
        rewrite length_alter, length_app. simpl. lia.
    + by rewrite (Hplan s), Hsections.
Qed.

(** C9. After [saveToBytes] or [saveToBytesWithObjectStreams], whether it
    returned or threw, the document of the store is the one it was before
    the call; so its index has the same entries, and when [maxObjNum] is at
    least every object number of the index, no entry of the index has the
    reference [(maxObjNum + 1, 0)], which is the one of the Object Stream
    for [maxObjNum] below [2^53]. *)
Theorem index_not_mutated (entry : JS Uint8Array) (s : Store) :
  entry = saveToBytes ∨ entry = saveToBytesWithObjectStreams →
  document (entry s).2 = document s ∧
  index (doc_index (document (entry s).2)) = index (doc_index (document s)) ∧
  ((∀ e, e ∈ index (doc_index (document s)) →
      (objectNumber e.1 ≤ maxObjNum (document s))%Z) →
   ∀ e, e ∈ index (doc_index (document (entry s).2)) →
     e.1 ≠ forNumbers (maxObjNum (document s) + 1) 0).
Proof.
  intros [plan Hplan]%entry_point_shape.
  assert (document (entry s).2 = document s) as Hdoc.
  { rewrite Hplan. by destruct (plan (document s)). }
  rewrite Hdoc. split_and!; [done..|].
  intros Hmax e He Heq. specialize (Hmax e He). rewrite Heq in Hmax.
  simpl in Hmax. lia.
Qed.

(** ** More than one Catalog *)

Lemma trailersWritten_classic (s : Store) (n : nat) (view : Uint8Array)
  (h : PDFHeader) (objects : list PDFIndirectObject) (x : PDFXRefTable)
  (t : PDFTrailer) :
  trailersWritten
    (afterCopies (afterNew s n) view
       ((Header h :: (IndirectObject <$> objects)) ++ [XRefTable x; Trailer t]))
  = trailersWritten s ++ [t].
Proof.
  unfold trailersWritten. rewrite sectionsWritten_afterCopies.
  rewrite !omap_app. csimpl. by rewrite omap_fmap_None.
Qed.

Lemma roots_of_both_paths (s : Store) :
  0 < length (catalogs (index (doc_index (document s)))) →
  ∃ result1 s1 result2 s2 first lastEntry trailer xrefStream,
    saveToBytes s = (Normal result1, s1) ∧
    saveToBytesWithObjectStreams s = (Normal result2, s2) ∧
    trailersWritten s1 = trailersWritten s ++ [trailer] ∧
    Root (trailer_dictionary trailer) = reference first ∧
    List.find (λ o, instanceof_PDFCatalog (pdfObject o))
      (Array_sort compareObjectNumbers
         (unitOf <$> index (doc_index (document s)))) = Some first ∧
    (reference first, pdfObject first)
      ∈ catalogs (index (doc_index (document s))) ∧
    (∀ entry, entry ∈ catalogs (index (doc_index (document s))) →
       (objectNumber (reference first) ≤ objectNumber entry.1)%Z) ∧
    xrefStreamsWritten s2 = xrefStreamsWritten s ++ [xrefStream] ∧
    xref_root xrefStream = lastEntry.1 ∧
    last (catalogs (index (doc_index (document s)))) = Some lastEntry.
Proof.
  intros Hpos.
  destruct (catalogs_find _ Hpos) as (first & lastEntry & Hfind & Hlast).
  eexists _, _, _, _, first, lastEntry, _, _.
  split; [by apply saveToBytes_return|].
  split; [by apply saveToBytesWithObjectStreams_return|].
  split; [apply trailersWritten_classic|].
  split; [done|]. split; [done|].
  destruct (Array_sort_compareObjectNumbers
              (unitOf <$> index (doc_index (document s)))) as [_ Hsorted].
  pose proof (find_some _ _ Hfind) as [Hin Hcat].
  apply list_elem_of_In, sorted_elem_of in Hin.
  split.
  { apply list_elem_of_filter. split; [|done]. simpl. by rewrite Hcat. }
  split.
  { intros [ref object] [Hc He]%list_elem_of_filter. simpl in Hc.
    apply (find_first_least _ _ _ Hsorted Hfind
             {| pdfObject := object; reference := ref |}).
    - by apply sorted_elem_of.
    - simpl. by destruct (instanceof_PDFCatalog object). }
  split; [apply xrefStreamsWritten_compact|]. done.
Qed.

(** C10. When the index has more than one Catalog, both entry points
    return: the trailer of [saveToBytes] has as [Root] the reference of
    the first Catalog of the sorted sequence, a Catalog of the index whose
    object number is the smallest among the Catalogs, and the
    cross-reference stream of [saveToBytesWithObjectStreams] is made with
    the reference of the last Catalog in the iteration order of the index.
    And for any Catalog object there is a document with two Catalogs on
    which the two paths write different roots. *)
Theorem several_catalogs :
  (∀ s : Store,
     1 < length (catalogs (index (doc_index (document s)))) →
     ∃ result1 s1 result2 s2 first lastEntry trailer xrefStream,
       saveToBytes s = (Normal result1, s1) ∧
       saveToBytesWithObjectStreams s = (Normal result2, s2) ∧
       trailersWritten s1 = trailersWritten s ++ [trailer] ∧
       Root (trailer_dictionary trailer) = reference first ∧
       List.find (λ o, instanceof_PDFCatalog (pdfObject o))
         (Array_sort compareObjectNumbers
            (unitOf <$> index (doc_index (document s)))) = Some first ∧
       (reference first, pdfObject first)
         ∈ catalogs (index (doc_index (document s))) ∧
       (∀ entry, entry ∈ catalogs (index (doc_index (document s))) →
          (objectNumber (reference first) ≤ objectNumber entry.1)%Z) ∧
       xrefStreamsWritten s2 = xrefStreamsWritten s ++ [xrefStream] ∧
       xref_root xrefStream = lastEntry.1 ∧
       last (catalogs (index (doc_index (document s)))) = Some lastEntry) ∧
  (∀ (h : PDFHeader) (catalog : PDFObject),
     instanceof_PDFCatalog catalog →
     ∃ (s : Store) trailer xrefStream,
       1 < length (catalogs (index (doc_index (document s)))) ∧
       trailersWritten (saveToBytes s).2 = [trailer] ∧
       xrefStreamsWritten (saveToBytesWithObjectStreams s).2 = [xrefStream] ∧
       Root (trailer_dictionary trailer) = forNumbers 1 0 ∧
       xref_root xrefStream = forNumbers 2 0).
Proof.
  split.
  - intros s Hmany. apply roots_of_both_paths. lia.
  - intros h catalog Hcat.
    set (idx := [(forNumbers 1 0, catalog); (forNumbers 2 0, catalog)]).
    set (s := {| document := {| header := h;
                                doc_index := {| index := idx |};
                                maxObjNum := 2 |};
                 arrayBuffers := []; journal := [] |}).
    assert (catalogs idx = idx) as Hcatalogs.
    { unfold catalogs, idx. by rewrite !filter_cons_True. }
    assert (0 < length (catalogs (index (doc_index (document s))))) as Hpos.
    { simpl. rewrite Hcatalogs. simpl. lia. }
    destruct (roots_of_both_paths s Hpos)
      as (r1 & s1 & r2 & s2 & first & lastEntry & trailer & xrefStream
          & Hrun1 & Hrun2 & Ht & Hroot & _ & Hin & Hleast & Hx & Hxroot & Hlast).
    simpl in Hin, Hleast, Hlast. rewrite Hcatalogs in Hin, Hleast, Hlast.
    exists s, trailer, xrefStream.
    rewrite Hrun1, Hrun2. simpl.
    split; [rewrite Hcatalogs; simpl; lia|].
    split; [done|]. split; [done|]. split.
    + rewrite Hroot.
      specialize (Hleast (forNumbers 1 0, catalog)). simpl in Hleast.
      unfold idx in Hin, Hleast.
      rewrite !elem_of_cons, elem_of_nil in Hin.
      destruct Hin as [[= Hr _]|[[= Hr _]|[]]]; [done|].
      rewrite Hr in Hleast. simpl in Hleast.
      assert ((2 ≤ 1)%Z) as Habsurd; [|lia].
      apply Hleast. by left.
    + rewrite Hxroot. simpl in Hlast. by injection Hlast as <-.
Qed.

End properties.

(** * More properties of the writer *)

Section coverage.
Context `{CO : Collaborators}.

(** ** Which documents the entry points accept *)


(** ** The classic path *)

Lemma objectsWritten_classic (s : Store) (n : nat) (view : Uint8Array)
  (h : PDFHeader) (objects : list PDFIndirectObject) (x : PDFXRefTable)
  (t : PDFTrailer) :
  objectsWritten
    (afterCopies (afterNew s n) view
       ((Header h :: (IndirectObject <$> objects)) ++ [XRefTable x; Trailer t]))
  = objectsWritten s ++ objects.
Proof.
  unfold objectsWritten. rewrite sectionsWritten_afterCopies.
  rewrite !omap_app. csimpl. rewrite omap_fmap_Some by done.
  by rewrite app_nil_r.
Qed.

(** X2. For every store whose document has an index with a Catalog,
    [saveToBytes] returns after copying, in this order: the header, one
    unit for every entry of the index in ascending order of object number,
    the table, and the trailer; every copy starts where the one before it
    stopped.  The table was made from the very sequence of units that is
    written, and one trailer is written. *)
Theorem classic_file_order (s : Store) :
  0 < length (catalogs (index (doc_index (document s)))) →
  ∃ result s' sortedIndex table trailer written,
    saveToBytes s = (Normal result, s') ∧
    journal s' = journal s ++ written ∧
    copied <$> written
    = [Header (header (document s))] ++ (IndirectObject <$> sortedIndex)
      ++ [XRefTable table; Trailer trailer] ∧
    sortedIndex ≡ₚ unitOf <$> index (doc_index (document s)) ∧
    StronglySorted objectNumber_le sortedIndex ∧
    table_objects table = sortedIndex ∧
    (∀ c, head written = Some c → into c = result) ∧
    (∀ i c c', written !! i = Some c → written !! S i = Some c' →
       into c' = remaining c) ∧
    objectsWritten s' = objectsWritten s ++ sortedIndex ∧
    trailersWritten s' = trailersWritten s ++ [trailer].
Proof.
  intros Hpos. destruct (catalogs_find _ Hpos) as (catalog & _ & Hfind & _).
  pose proof (saveToBytes_return s catalog Hfind) as Hret. cbv zeta in Hret.
  destruct (Array_sort_compareObjectNumbers
              (unitOf <$> index (doc_index (document s)))) as [Hperm Hsorted].
  match type of Hret with
  | _ = (_, afterCopies _ ?v ?l) =>
      eexists _, _, _, _, _, (copies l v)
  end.
  split; [exact Hret|].
  split; [done|].
  split; [by rewrite copied_copies|].
  split; [exact Hperm|]. split; [exact Hsorted|]. split; [done|].
  split; [by intros c [= <-]|].
  split; [by apply copies_chain|].
  split; [apply objectsWritten_classic|apply trailersWritten_classic].
Qed.

(** ** The iteration order of the index *)

Lemma NoDup_fmap_eq {A B} (f : A → B) (l : list A) (x y : A) :
  NoDup (f <$> l) → x ∈ l → y ∈ l → f x = f y → x = y.
Proof.
  induction l as [|a l IH]; [by intros _ ?%not_elem_of_nil|].
  rewrite fmap_cons, NoDup_cons, !elem_of_cons.
  intros [Ha Hl] [->|Hx] [->|Hy] Heq; [done| | |by apply IH].
  - destruct Ha. rewrite Heq. by apply list_elem_of_fmap_2.
  - destruct Ha. rewrite <- Heq. by apply list_elem_of_fmap_2.
Qed.

(** Two sorted arrays with the same units are the same array when no two
    units share an object number. *)
Lemma sorted_units_unique (l1 l2 : list PDFIndirectObject) :
  StronglySorted objectNumber_le l1 →
  StronglySorted objectNumber_le l2 →
  l1 ≡ₚ l2 →
  (∀ x y, x ∈ l1 → y ∈ l1 →
     objectNumber (reference x) = objectNumber (reference y) → x = y) →
  l1 = l2.
Proof.
  intros Hs1. revert l2.
  induction Hs1 as [|x l1 Hs1 IH Hx]; intros l2 Hs2 Hperm Hdistinct.
  - by apply Permutation_nil in Hperm.
  - destruct Hs2 as [|y l2 Hs2 Hy].
    { symmetry in Hperm. by apply Permutation_nil_cons in Hperm. }
    rewrite Forall_forall in Hx, Hy.
    assert (x ∈ y :: l2) as Hxin by (rewrite <- Hperm; by left).
    assert (y ∈ x :: l1) as Hyin by (rewrite Hperm; by left).
    assert (x = y) as <-.
    { apply Hdistinct; [by left|done|].
      apply elem_of_cons in Hxin as [->|Hxin]; [done|].
      apply elem_of_cons in Hyin as [->|Hyin]; [done|].
      specialize (Hx _ Hyin). specialize (Hy _ Hxin).
      unfold objectNumber_le in *. lia. }
    f_equal. apply IH; [done|by apply Permutation_cons_inv in Hperm|].
    intros a b Ha Hb. apply Hdistinct; by right.
Qed.

Lemma Array_sort_units_eq (index1 index2 : JSMap) :
  index1 ≡ₚ index2 →
  NoDup ((λ entry, objectNumber entry.1) <$> index1) →
  Array_sort compareObjectNumbers (unitOf <$> index1)
  = Array_sort compareObjectNumbers (unitOf <$> index2).
Proof.
  intros Hperm Hdistinct.
  destruct (Array_sort_compareObjectNumbers (unitOf <$> index1)) as [Hp1 Hs1].
  destruct (Array_sort_compareObjectNumbers (unitOf <$> index2)) as [Hp2 Hs2].
  apply sorted_units_unique; [done|done|by rewrite Hp1, Hp2, Hperm|].
  intros x y Hx Hy Heq. rewrite Hp1 in Hx, Hy.
  apply list_elem_of_fmap in Hx as (ex & -> & Hex).
  apply list_elem_of_fmap in Hy as (ey & -> & Hey).
  f_equal. by apply (NoDup_fmap_eq (λ entry, objectNumber entry.1) index1).
Qed.

(** X3. When no two entries of the index share an object number,
    [sortIndex] returns the same sequence for two Maps that hold the same
    entries in different iteration orders. *)
Theorem sortIndex_ignores_iteration_order (index1 index2 : JSMap)
  (s1 s2 : Store) :
  index1 ≡ₚ index2 →
  NoDup ((λ entry, objectNumber entry.1) <$> index1) →
  ∃ units,
    sortIndex index1 s1 = (Normal units, s1) ∧
    sortIndex index2 s2 = (Normal units, s2).
Proof.
  intros Hperm Hdistinct. eexists. split; [apply sortIndex_run|].
  rewrite sortIndex_run. by rewrite (Array_sort_units_eq index1 index2).
Qed.

(** X4. Take two documents with the same header whose indexes hold the
    same entries, with no object number used twice and a Catalog among
    them, in different iteration orders.  [saveToBytes] returns for both
    and copies the same header, the same body units in the same order and
    the same table; the two trailers have the same offset, the same [Size]
    and the same [Root]. *)
Theorem saveToBytes_ignores_iteration_order (s1 s2 : Store) :
  index (doc_index (document s1)) ≡ₚ index (doc_index (document s2)) →
  NoDup ((λ entry, objectNumber entry.1) <$> index (doc_index (document s1))) →
  header (document s1) = header (document s2) →
  0 < length (catalogs (index (doc_index (document s1)))) →
  ∃ result1 s1' result2 s2' written1 written2 body table trailer1 trailer2,
    saveToBytes s1 = (Normal result1, s1') ∧
    saveToBytes s2 = (Normal result2, s2') ∧
    journal s1' = journal s1 ++ written1 ∧
    journal s2' = journal s2 ++ written2 ∧
    copied <$> written1 = body ++ [XRefTable table; Trailer trailer1] ∧
    copied <$> written2 = body ++ [XRefTable table; Trailer trailer2] ∧
    trailer_offset trailer1 = trailer_offset trailer2 ∧
    Size (trailer_dictionary trailer1) = Size (trailer_dictionary trailer2) ∧
    Root (trailer_dictionary trailer1) = Root (trailer_dictionary trailer2).
Proof.
  intros Hperm Hdistinct Hheader Hpos.
  destruct (catalogs_find _ Hpos) as (catalog & _ & Hfind1 & _).
  pose proof Hfind1 as Hfind2.
  rewrite (Array_sort_units_eq _ _ Hperm Hdistinct) in Hfind2.
  pose proof (saveToBytes_return s1 catalog Hfind1) as Hret1.
  pose proof (saveToBytes_return s2 catalog Hfind2) as Hret2.
  cbv zeta in Hret1, Hret2.
  rewrite <- (Array_sort_units_eq _ _ Hperm Hdistinct) in Hret2.
  rewrite <- Hheader in Hret2.
  rewrite <- (Permutation_length Hperm) in Hret2.
  match type of Hret1 with
  | _ = (_, afterCopies _ ?v1 ?l1) =>
      match type of Hret2 with
      | _ = (_, afterCopies _ ?v2 ?l2) =>
          eexists _, _, _, _, (copies l1 v1), (copies l2 v2), _, _, _, _
      end
  end.
  split; [exact Hret1|]. split; [exact Hret2|].
  split; [done|]. split; [done|].
  rewrite !copied_copies. split; [reflexivity|]. split; [reflexivity|].
  done.
Qed.

(** ** The root the two paths record *)

(** X5. When the index has a Catalog, the [Root] of the trailer of
    [saveToBytes] and the root given to the cross-reference stream of
    [saveToBytesWithObjectStreams] are both keys of the index whose object
    is a Catalog; and when the index has exactly one Catalog the two paths
    record the same root. *)
Theorem roots_are_catalogs (s : Store) :
  0 < length (catalogs (index (doc_index (document s)))) →
  ∃ result1 s1 result2 s2 trailer xrefStream,
    saveToBytes s = (Normal result1, s1) ∧
    saveToBytesWithObjectStreams s = (Normal result2, s2) ∧
    trailersWritten s1 = trailersWritten s ++ [trailer] ∧
    xrefStreamsWritten s2 = xrefStreamsWritten s ++ [xrefStream] ∧
    Root (trailer_dictionary trailer)
      ∈ (catalogs (index (doc_index (document s)))).*1 ∧
    xref_root xrefStream ∈ (catalogs (index (doc_index (document s)))).*1 ∧
    (length (catalogs (index (doc_index (document s)))) = 1 →
     Root (trailer_dictionary trailer) = xref_root xrefStream).
Proof.
  intros Hpos.
  destruct (roots_of_both_paths s Hpos)
    as (result1 & s1 & result2 & s2 & first & lastEntry & trailer & xrefStream
        & Hrun1 & Hrun2 & Htrailer & Hroot & _ & Hfirst & _
        & Hxref & Hxroot & Hlast).
  exists result1, s1, result2, s2, trailer, xrefStream.
  split; [done|]. split; [done|]. split; [done|]. split; [done|].
  rewrite Hroot, Hxroot.
  apply last_Some_elem_of in Hlast as Hlastin.
  split; [|split].
  - by apply (list_elem_of_fmap_2 fst) in Hfirst.
  - by apply list_elem_of_fmap_2.
  - intros Hone.
    destruct (catalogs (index (doc_index (document s)))) as [|entry [|? ?]];
      try done.
    apply list_elem_of_singleton in Hfirst, Hlastin. by subst.
Qed.

(** ** Buffers *)

(** X6. A call of [saveToBytes] or [saveToBytesWithObjectStreams] that
    returns has allocated exactly one array buffer, after the ones that
    were there, which are as they were; the view it returns is the whole of
    that buffer.  A call that throws has allocated nothing. *)
Theorem one_buffer_per_call (entry : JS Uint8Array) (s : Store) :
  entry = saveToBytes ∨ entry = saveToBytesWithObjectStreams →
  match entry s with
  | (Normal result, s') =>
      ∃ bytes,
        arrayBuffers s' = arrayBuffers s ++ [bytes] ∧
        buffer result = length (arrayBuffers s) ∧
        byteOffset result = 0 ∧
        byteLength result = length bytes ∧
        contents result s' = bytes
  | (Throw _, s') => arrayBuffers s' = arrayBuffers s
  end.
Proof.
  intros [plan Hplan]%entry_point_shape. rewrite Hplan.
  destruct (plan (document s)) as [sections|]; [|done].
  set (n := reportedSize sections).
  set (mem := list_inserts 0 (take n (bytesOfAll sections)) (replicate n x00)).
  assert (length mem = n) as Hmem.
  { unfold mem. by rewrite length_inserts, length_replicate. }
  assert (arrayBuffers (afterCopies (afterNew s n) (freshView s n) sections)
          = arrayBuffers s ++ [mem]) as Hbuffers.
  { unfold afterCopies, afterNew, freshView, setBytes. simpl.
    rewrite <- (Nat.add_0_r (length (arrayBuffers s))).
    by rewrite alter_app_r. }
  exists mem. split; [done|]. split; [done|]. split; [done|].
  split; [done|].
  unfold contents. rewrite Hbuffers. simpl.
  rewrite list_lookup_total_middle by done.
  rewrite drop_0, take_ge; [done|lia].
Qed.

(** ** Where the trailers point *)

Lemma xref_at_offset (s : Store) (body : list Writable) (xref trailer : Writable) :
  SizesExact →
  let sections := body ++ [xref; trailer] in
  let n := reportedSize sections in
  ∃ written c,
    journal (afterCopies (afterNew s n) (freshView s n) sections)
    = journal s ++ written ∧
    c ∈ written ∧
    copied c = xref ∧
    last (copied <$> written) = Some trailer ∧
    into c
    = {| buffer := length (arrayBuffers s);
         byteOffset := reportedSize body;
         byteLength := n - reportedSize body |}.
Proof.
  intros Hexact sections n.
  destruct (exact_layout s sections Hexact)
    as (written & Hjournal & Hcopied & (_ & _ & Heach & _) & _ & _).
  { unfold sections. by destruct body. }
  assert ((copied <$> written) !! length body = Some xref) as Hxref.
  { rewrite Hcopied. unfold sections. by apply list_lookup_middle. }
  rewrite list_lookup_fmap in Hxref.
  destruct (written !! length body) as [c|] eqn:Hc; [|done].
  injection Hxref as Hxref.
  exists written, c. split; [exact Hjournal|].
  split; [by eapply list_elem_of_lookup_2|]. split; [exact Hxref|].
  split; [rewrite Hcopied; unfold sections; by rewrite last_app|].
  destruct (Heach _ _ Hc) as [-> _].
  rewrite fmap_take, Hcopied. unfold sections. by rewrite take_app_length.
Qed.

(** X7. If every collaborator reports as its size the number of bytes it
    copies, then in a call of [saveToBytes] that returns, the table is
    copied at the byte offset that the trailer, copied last, holds; and in
    a call of [saveToBytesWithObjectStreams] that returns, the
    cross-reference stream is copied at the byte offset that the pointer
    trailer holds. *)
Theorem trailers_point_to_xref (s : Store) :
  SizesExact →
  (∀ result s',
     saveToBytes s = (Normal result, s') →
     ∃ written c table trailer,
       journal s' = journal s ++ written ∧
       c ∈ written ∧
       copied c = XRefTable table ∧
       last (copied <$> written) = Some (Trailer trailer) ∧
       into c
       = {| buffer := buffer result;
            byteOffset := trailer_offset trailer;
            byteLength := byteLength result - trailer_offset trailer |}) ∧
  (∀ result s',
     saveToBytesWithObjectStreams s = (Normal result, s') →
     ∃ written c xrefStream trailer,
       journal s' = journal s ++ written ∧
       c ∈ written ∧
       copied c = XRefStream xrefStream ∧
       last (copied <$> written) = Some (TrailerX trailer) ∧
       into c
       = {| buffer := buffer result;
            byteOffset := trailerX_offset trailer;
            byteLength := byteLength result - trailerX_offset trailer |}).
Proof.
  intros Hexact. split; intros result s' Hrun.
  - destruct (List.find (λ o, instanceof_PDFCatalog (pdfObject o))
                (Array_sort compareObjectNumbers
                   (unitOf <$> index (doc_index (document s)))))
      as [catalog|] eqn:Hfind;
      [|by rewrite (saveToBytes_throw s Hfind) in Hrun].
    pose proof (saveToBytes_return s catalog Hfind) as Hret. cbv zeta in Hret.
    match type of Hret with
    | _ = (_, afterCopies _ _ (?b ++ [?x; ?t])) =>
        destruct (xref_at_offset s b x t Hexact)
          as (written & c & Hjournal & Hin & Hcopied & Hlast & Hinto)
    end.
    rewrite Hret in Hrun. injection Hrun as <- <-.
    exists written, c. by eexists _, _.
  - destruct (last (catalogs (index (doc_index (document s)))))
      as [entry|] eqn:Hlast.
    2:{ apply last_None in Hlast.
        by rewrite (saveToBytesWithObjectStreams_throw s Hlast) in Hrun. }
    pose proof (saveToBytesWithObjectStreams_return s entry Hlast) as Hret.
    cbv zeta in Hret.
    match type of Hret with
    | _ = (_, afterCopies _ _ (?b ++ [?x; ?t])) =>
        destruct (xref_at_offset s b x t Hexact)
          as (written & c & Hjournal & Hin & Hcopied & Hlastw & Hinto)
    end.
    rewrite Hret in Hrun. injection Hrun as <- <-.
    exists written, c. by eexists _, _.
Qed.

(** ** A [maxObjNum] that is behind the index *)

(** X8. [saveToBytesWithObjectStreams] does not check [maxObjNum] against
    the index.  When the index has a Catalog and already has an entry with
    the reference [(maxObjNum + 1, 0)] (the sum of the language, which is
    [maxObjNum + 1] below [2^53]), the call returns all the same, and
    the Object Stream gets that reference too: if the entry is a stream,
    two units of the body carry the reference; if it is not, the Object
    Stream is made from a sequence that holds a unit with the reference of
    the Object Stream itself. *)
Theorem objectStream_reference_not_checked (s : Store) (object : PDFObject) :
  0 < length (catalogs (index (doc_index (document s)))) →
  (forNumbers (Number_add (maxObjNum (document s)) 1) 0, object)
    ∈ index (doc_index (document s)) →
  ∃ result s' written objectStream nonStreamObjects,
    saveToBytesWithObjectStreams s = (Normal result, s') ∧
    objectsWritten s' = objectsWritten s ++ written ∧
    last written = Some objectStream ∧
    reference objectStream = forNumbers (Number_add (maxObjNum (document s)) 1) 0 ∧
    pdfObject objectStream
    = PDFObjectStream_create_encode (doc_index (document s)) nonStreamObjects ∧
    if instanceof_PDFStream object
    then ∃ i, i < pred (length written) ∧
           (reference <$> written) !! i = Some (reference objectStream)
    else ∃ unit, unit ∈ nonStreamObjects ∧
           reference unit = reference objectStream.
Proof.
  intros Hpos Hin. destruct (catalogs_find _ Hpos) as (_ & entry & _ & Hlast).
  pose proof (saveToBytesWithObjectStreams_return s entry Hlast) as Hret.
  cbv zeta in Hret.
  eexists _, _, _, _, _. split; [exact Hret|].
  split; [apply objectsWritten_compact|].
  split; [apply last_snoc|]. split; [done|]. split; [done|].
  simpl reference.
  destruct (instanceof_PDFStream object) eqn:Hstream.
  - assert (unitOf (forNumbers (Number_add (maxObjNum (document s)) 1) 0, object)
            ∈ unitOf <$> streams (index (doc_index (document s)))) as Hunit.
    { apply list_elem_of_fmap_2, list_elem_of_filter.
      split; [simpl; by rewrite Hstream|done]. }
    apply list_elem_of_lookup_1 in Hunit as [i Hi].
    pose proof (lookup_lt_Some _ _ _ Hi) as Hlt.
    exists i. rewrite length_app. simpl. split; [lia|].
    rewrite list_lookup_fmap, lookup_app_l by done. by rewrite Hi.
  - exists (unitOf (forNumbers (Number_add (maxObjNum (document s)) 1) 0, object)).
    split; [|done].
    apply list_elem_of_fmap_2, list_elem_of_filter.
    split; [simpl; rewrite Hstream; intros []|done].
Qed.

(** ** One call after another *)

Lemma output_shape (entry : JS Uint8Array)
  (plan : PDFDocument → option (list Writable)) :
  (∀ s,
     entry s
     = match plan (document s) with
       | None => (Throw "Missing PDFCatalog", s)
       | Some sections =>
           (Normal (freshView s (reportedSize sections)),
            afterCopies (afterNew s (reportedSize sections))
              (freshView s (reportedSize sections)) sections)
       end) →
  ∀ s,
    document (entry s).2 = document s ∧
    length (arrayBuffers s) ≤ length (arrayBuffers (entry s).2) ∧
    (∀ view, buffer view < length (arrayBuffers s) →
       contents view (entry s).2 = contents view s) ∧
    output entry s
    = match plan (document s) with
      | None => Throw "Missing PDFCatalog"
      | Some sections =>
          Normal (take (reportedSize sections) (bytesOfAll sections)
                  ++ replicate
                       (reportedSize sections - length (bytesOfAll sections))
                       x00)
      end.
Proof.
  intros Hplan s. unfold output. rewrite Hplan.
  destruct (plan (document s)) as [sections|]; [|done].
  split; [done|]. split.
  { unfold afterCopies, afterNew, setBytes. simpl.
    rewrite length_alter, length_app. lia. }
  split; [intros view Hview; by apply contents_older|].
  by rewrite contents_fresh.
Qed.

(** X9. The two entry points can be called one after the other on the same
    document, in any combination: the second call gives the output it
    would have given without the first, and the buffer the first call
    returned shows the same bytes after the second call. *)
Theorem calls_compose (first second : JS Uint8Array) (s : Store) :
  first = saveToBytes ∨ first = saveToBytesWithObjectStreams →
  second = saveToBytes ∨ second = saveToBytesWithObjectStreams →
  output second (first s).2 = output second s ∧
  match first s with
  | (Normal result, s1) => contents result (second s1).2 = contents result s1
  | (Throw _, _) => True
  end.
Proof.
  intros [plan1 Hplan1]%entry_point_shape [plan2 Hplan2]%entry_point_shape.
  pose proof (output_shape first plan1 Hplan1 s) as (Hdoc1 & _ & _ & _).
  split.
  - destruct (output_shape second plan2 Hplan2 (first s).2) as (_ & _ & _ & ->).
    destruct (output_shape second plan2 Hplan2 s) as (_ & _ & _ & ->).
    by rewrite Hdoc1.
  - rewrite Hplan1. destruct (plan1 (document s)) as [sections|]; [|done].
    set (n := reportedSize sections).
    set (s1 := afterCopies (afterNew s n) (freshView s n) sections).
    destruct (output_shape second plan2 Hplan2 s1) as (_ & _ & Holder & _).
    apply Holder. unfold s1, afterCopies, afterNew, setBytes. simpl.
    rewrite length_alter, length_app. simpl. lia.
Qed.

(** ** The root is among the objects written *)

(** X10. When the index has a Catalog, the root each path records is the
    reference of a Catalog that the same call writes: in [saveToBytes] a
    unit of the body; in [saveToBytesWithObjectStreams] a unit of the body
    when that Catalog is a stream, and otherwise one of the units the
    Object Stream is made from, that Object Stream being the last unit of
    the body. *)
Theorem roots_are_written (s : Store) :
  0 < length (catalogs (index (doc_index (document s)))) →
  ∃ result1 s1 result2 s2 trailer xrefStream body1 body2 nonStreamObjects,
    saveToBytes s = (Normal result1, s1) ∧
    saveToBytesWithObjectStreams s = (Normal result2, s2) ∧
    trailersWritten s1 = trailersWritten s ++ [trailer] ∧
    xrefStreamsWritten s2 = xrefStreamsWritten s ++ [xrefStream] ∧
    objectsWritten s1 = objectsWritten s ++ body1 ∧
    objectsWritten s2 = objectsWritten s ++ body2 ∧
    pdfObject (xref_objectStream xrefStream)
    = PDFObjectStream_create_encode (doc_index (document s)) nonStreamObjects ∧
    last body2 = Some (xref_objectStream xrefStream) ∧
    xref_objects xrefStream = body2 ∧
    (∃ unit, unit ∈ body1 ∧
       reference unit = Root (trailer_dictionary trailer) ∧
       instanceof_PDFCatalog (pdfObject unit)) ∧
    (∃ unit,
       reference unit = xref_root xrefStream ∧
       instanceof_PDFCatalog (pdfObject unit) ∧
       if instanceof_PDFStream (pdfObject unit)
       then unit ∈ body2
       else unit ∈ nonStreamObjects).
Proof.
  intros Hpos.
  destruct (catalogs_find _ Hpos) as (first & lastEntry & Hfind & Hlast).
  pose proof (saveToBytes_return s first Hfind) as Hret1.
  pose proof (saveToBytesWithObjectStreams_return s lastEntry Hlast) as Hret2.
  cbv zeta in Hret1, Hret2.
  eexists _, _, _, _, _, _, _, _, _.
  split; [exact Hret1|]. split; [exact Hret2|].
  split; [apply trailersWritten_classic|].
  split; [apply xrefStreamsWritten_compact|].
  split; [apply objectsWritten_classic|].
  split; [apply objectsWritten_compact|].
  split; [done|]. split; [apply last_snoc|]. split; [done|]. split.
  - exists first. apply find_some in Hfind as [Hin Hcat].
    split; [by apply list_elem_of_In|]. split; [done|by rewrite Hcat].
  - exists (unitOf lastEntry).
    apply last_Some_elem_of, list_elem_of_filter in Hlast as [Hcat Hin].
    split; [done|]. split; [done|].
    simpl pdfObject.
    destruct (instanceof_PDFStream lastEntry.2) eqn:Hstream.
    + apply elem_of_app. left.
      apply list_elem_of_fmap_2, list_elem_of_filter.
      split; [by rewrite Hstream|done].
    + apply list_elem_of_fmap_2, list_elem_of_filter.
      split; [rewrite Hstream; intros []|done].
Qed.

End coverage.

(** * The properties on the sample documents *)

#[local] Existing Instance sampleModel.
#[local] Existing Instance sampleCollaborators.

(** The scenario, run: the classic path writes the header, the units 1, 2
    and 3, a table and the trailer; the compact path writes the header,
    the stream 3, the Object Stream 4 that holds 1 and 2, the
    cross-reference stream and the pointer. *)
Example scenario_saveToBytes :
  output saveToBytes (freshStore scenarioDocument)
  = Normal [x25; x50; x44; x46; x43; x61; x74; x3c; x3e;
            x73; x74; x72; x6d; x78; x78; x78; x74; x72].
Proof. reflexivity. Qed.

Example scenario_saveToBytesWithObjectStreams :
  output saveToBytesWithObjectStreams (freshStore scenarioDocument)
  = Normal [x25; x50; x44; x46; x73; x74; x72; x6d; x6f; x6f; x58; x58; x54].
Proof. reflexivity. Qed.

Example scenario_body_units :
  reference
    <$> objectsWritten (saveToBytesWithObjectStreams (freshStore scenarioDocument)).2
  = [forNumbers 3 0; forNumbers 4 0].
Proof. reflexivity. Qed.

Example rootless_sortIndex :
  sortIndex (index (doc_index rootlessDocument)) (freshStore rootlessDocument)
  = (Normal [{| pdfObject := SampleStream; reference := forNumbers 1 0 |};
             {| pdfObject := SampleDictionary; reference := forNumbers 2 0 |}],
     freshStore rootlessDocument).
Proof. reflexivity. Qed.

Example rootless_output :
  output saveToBytes (freshStore rootlessDocument) = Throw "Missing PDFCatalog".
Proof. reflexivity. Qed.

Lemma sample_SizesExact : SizesExact.
Proof. intros w. reflexivity. Defined.

Lemma scenario_has_catalog :
  0 < length (catalogs (index (doc_index (document (freshStore scenarioDocument))))).
Proof. vm_compute. lia. Defined.

(** On the document without a Catalog both entry points throw. *)
Lemma missing_catalog_throws_witness :
  length (catalogs (index (doc_index (document (freshStore rootlessDocument))))) = 0 ∧
  saveToBytes (freshStore rootlessDocument)
    = (Throw "Missing PDFCatalog", freshStore rootlessDocument) ∧
  saveToBytesWithObjectStreams (freshStore rootlessDocument)
    = (Throw "Missing PDFCatalog", freshStore rootlessDocument).
Proof.
  split; [reflexivity|].
  apply (missing_catalog_throws (freshStore rootlessDocument)). reflexivity.
Defined.

(** On the scenario the trailer has [Size] 4 and [Root] 1. *)
Lemma saveToBytes_trailer_dictionary_witness :
  0 < length (catalogs (index (doc_index (document (freshStore scenarioDocument))))) ∧
  ∃ trailer,
    last (sectionsWritten (saveToBytes (freshStore scenarioDocument)).2)
      = Some (Trailer trailer) ∧
    Size (trailer_dictionary trailer) = fromNumber 4 ∧
    Root (trailer_dictionary trailer) = forNumbers 1 0.
Proof.
  split; [exact scenario_has_catalog|].
  destruct (saveToBytes_trailer_dictionary (freshStore scenarioDocument)
              scenario_has_catalog)
    as (result & s' & sortedIndex & catalog & trailer
        & Hrun & Hsort & Hfind & _ & Hlast & Hsize & Hroot).
  exists trailer. rewrite Hrun. simpl.
  split; [exact Hlast|]. split; [exact Hsize|].
  rewrite Hroot.
  vm_compute in Hsort. injection Hsort as <-.
  vm_compute in Hfind. injection Hfind as <-. reflexivity.
Defined.

(** On the scenario the classic path returns 18 bytes, and the cursor ends
    at 18. *)
Lemma exact_sizing_witness :
  SizesExact ∧
  ∃ result s' written,
    saveToBytes (freshStore scenarioDocument) = (Normal result, s') ∧
    journal s' = written ∧
    BackToBack result written ∧
    contents result s' = bytesOfAll (copied <$> written) ∧
    byteLength result = 18.
Proof.
  split; [exact sample_SizesExact|].
  destruct (saveToBytes (freshStore scenarioDocument)) as [[result|msg] s'] eqn:Hrun;
    [|by vm_compute in Hrun].
  destruct (exact_sizing (freshStore scenarioDocument) sample_SizesExact)
    as [Hclassic _].
  destruct (Hclassic result s' Hrun)
    as (written & sortedIndex & table & trailer
        & Hjournal & _ & _ & Hlayout & _ & Hcontents).
  exists result, s', written.
  split; [reflexivity|]. split; [exact Hjournal|]. split; [exact Hlayout|].
  split; [exact Hcontents|].
  vm_compute in Hrun. by injection Hrun as <- <-.
Defined.

Lemma scenario_maxObjNum :
  ∀ entry, entry ∈ index (doc_index (document (freshStore scenarioDocument))) →
    (objectNumber entry.1 ≤ maxObjNum (document (freshStore scenarioDocument)))%Z.
Proof. apply Forall_forall. repeat constructor; simpl; lia. Defined.

Lemma scenario_maxObjNum_double :
  (- 2 ^ 53 ≤ maxObjNum (document (freshStore scenarioDocument)) < 2 ^ 53)%Z.
Proof. simpl. lia. Defined.

(** On the scenario the Object Stream gets the reference 4, above the
    numbers 1, 2 and 3 of the index. *)
Lemma objectStream_reference_witness :
  0 < length (catalogs (index (doc_index (document (freshStore scenarioDocument))))) ∧
  (- 2 ^ 53 ≤ maxObjNum (document (freshStore scenarioDocument)) < 2 ^ 53)%Z ∧
  ∃ objectStream,
    last (objectsWritten
            (saveToBytesWithObjectStreams (freshStore scenarioDocument)).2)
      = Some objectStream ∧
    reference objectStream = forNumbers 4 0 ∧
    ∀ entry, entry ∈ index (doc_index (document (freshStore scenarioDocument))) →
      (objectNumber entry.1 < objectNumber (reference objectStream))%Z.
Proof.
  split; [exact scenario_has_catalog|].
  split; [exact scenario_maxObjNum_double|].
  destruct (objectStream_reference (freshStore scenarioDocument)
              scenario_has_catalog)
    as (result & s' & objectStream & xrefStream
        & Hrun & _ & _ & Href & _ & _ & _ & _ & _ & Hlast & Habove).
  exists objectStream. rewrite Hrun. simpl.
  split; [exact Hlast|].
  split; [exact (Href scenario_maxObjNum_double)|].
  exact (proj2 (Habove scenario_maxObjNum_double) scenario_maxObjNum).
Defined.

(** The claim as first stated fails on two documents.  On the document
    whose [maxObjNum] is 3 and whose index holds the stream 4, the Object
    Stream gets the number 4, which is not above the number 4 of the index.
    On the document whose [maxObjNum] is [2^53], the Object Stream gets the
    number [2^53], not [2^53 + 1], and it is not above the number of the
    Catalog. *)
Lemma objectStream_reference_counterexample :
  (∃ result s' objectStream,
     saveToBytesWithObjectStreams (freshStore staleDocument)
       = (Normal result, s') ∧
     last (objectsWritten s') = Some objectStream ∧
     ¬ (∀ entry, entry ∈ index (doc_index staleDocument) →
          (objectNumber entry.1 < objectNumber (reference objectStream))%Z)) ∧
  (∃ result s' objectStream,
     saveToBytesWithObjectStreams (freshStore hugeDocument)
       = (Normal result, s') ∧
     last (objectsWritten s') = Some objectStream ∧
     reference objectStream ≠ forNumbers (maxObjNum hugeDocument + 1) 0 ∧
     ¬ (∀ entry, entry ∈ index (doc_index hugeDocument) →
          (objectNumber entry.1 < objectNumber (reference objectStream))%Z)).
Proof.
  split.
  - do 3 eexists. split; [vm_compute; reflexivity|]. split; [reflexivity|].
    intros Habove.
    specialize (Habove (forNumbers 4 0, SampleStream)).
    vm_compute in Habove.
    assert (Eq = Lt) as Habsurd by (apply Habove; right; left). done.
  - do 3 eexists. split; [vm_compute; reflexivity|]. split; [reflexivity|].
    split; [by vm_compute|].
    intros Habove.
    specialize (Habove (forNumbers (2 ^ 53) 0, SampleCatalog)).
    vm_compute in Habove.
    assert (Eq = Lt) as Habsurd by (apply Habove; left). done.
Qed.

(** On the scenario 3 is the stream, 1 and 2 go into the Object Stream,
    and the body has two units. *)
Lemma partition_complete_witness :
  0 < length (catalogs (index (doc_index (document (freshStore scenarioDocument))))) ∧
  ∃ pdfCatalogRef streamObjects nonStreamObjects objectStream,
    scanIndex (index (doc_index (document (freshStore scenarioDocument))))
      = (pdfCatalogRef, streamObjects, nonStreamObjects) ∧
    reference <$> streamObjects = [forNumbers 3 0] ∧
    reference <$> nonStreamObjects = [forNumbers 1 0; forNumbers 2 0] ∧
    objectsWritten (saveToBytesWithObjectStreams (freshStore scenarioDocument)).2
      = streamObjects ++ [objectStream] ∧
    length (streamObjects ++ [objectStream]) = 2.
Proof.
  split; [exact scenario_has_catalog|].
  destruct (partition_complete (freshStore scenarioDocument))
    as (pdfCatalogRef & streamObjects & nonStreamObjects
        & Hscan & Hstreams & HnonStreams & _ & _ & Hrun).
  destruct (Hrun scenario_has_catalog)
    as (result & s' & objectStream & Hreturn & _ & Hwritten & Hlength & _).
  exists pdfCatalogRef, streamObjects, nonStreamObjects, objectStream.
  split; [exact Hscan|].
  split; [by rewrite Hstreams|]. split; [by rewrite HnonStreams|].
  rewrite Hreturn. simpl. split; [exact Hwritten|exact Hlength].
Defined.

(** On the scenario the body is the stream 3 and then the Object
    Stream 4, which holds the two other objects. *)
Lemma compact_file_order_witness :
  0 < length (catalogs (index (doc_index (document (freshStore scenarioDocument))))) ∧
  SizesExact ∧
  ∃ result s' objectStream xrefStream trailer,
    saveToBytesWithObjectStreams (freshStore scenarioDocument)
      = (Normal result, s') ∧
    objectStream
      = {| pdfObject := SampleObjectStream 2; reference := forNumbers 4 0 |} ∧
    xref_objectStream xrefStream = objectStream ∧
    xref_root xrefStream = forNumbers 1 0 ∧
    sectionsWritten s'
      = [Header tt;
         IndirectObject {| pdfObject := SampleStream; reference := forNumbers 3 0 |};
         IndirectObject objectStream;
         XRefStream xrefStream;
         TrailerX trailer] ∧
    contents result s'
      = bytesOf (Header tt)
        ++ bytesOfAll
             (IndirectObject
                <$> [{| pdfObject := SampleStream; reference := forNumbers 3 0 |};
                     objectStream])
        ++ bytesOf (XRefStream xrefStream) ++ bytesOf (TrailerX trailer).
Proof.
  split; [exact scenario_has_catalog|]. split; [exact sample_SizesExact|].
  destruct (compact_file_order (freshStore scenarioDocument) scenario_has_catalog)
    as (result & s' & objectStream & xrefStream & trailer & written
        & Hrun & Hjournal & Hcopied & _ & _ & _ & _ & _ & _ & _
        & Hgiven & Hpayload & Hreference & _ & _ & Hroot & _ & Hcontents).
  exists result, s', objectStream, xrefStream, trailer.
  split; [exact Hrun|].
  split; [destruct objectStream; simpl in *; by rewrite Hpayload, Hreference|].
  split; [exact Hgiven|].
  split; [by injection Hroot as <-|]. split.
  - unfold sectionsWritten. rewrite Hjournal. simpl. exact Hcopied.
  - exact (Hcontents sample_SizesExact).
Defined.

(** On the scenario the bytes are the same in a fresh store and in a
    store that already holds a buffer. *)
Lemma entry_points_deterministic_witness :
  document (freshStore scenarioDocument) = document (busyStore scenarioDocument) ∧
  output saveToBytes (freshStore scenarioDocument)
    = output saveToBytes (busyStore scenarioDocument) ∧
  output saveToBytesWithObjectStreams (freshStore scenarioDocument)
    = output saveToBytesWithObjectStreams (busyStore scenarioDocument).
Proof.
  split; [reflexivity|]. split.
  - apply (entry_points_deterministic saveToBytes (or_introl eq_refl)).
    reflexivity.
  - apply (entry_points_deterministic saveToBytesWithObjectStreams
             (or_intror eq_refl)).
    reflexivity.
Defined.

(** On the scenario the index is the same after the compact path and has
    no entry for the reference 4. *)
Lemma index_not_mutated_witness :
  index (doc_index
           (document (saveToBytesWithObjectStreams (freshStore scenarioDocument)).2))
    = index (doc_index scenarioDocument) ∧
  ∀ e,
    e ∈ index (doc_index
                 (document (saveToBytesWithObjectStreams
                              (freshStore scenarioDocument)).2)) →
    e.1 ≠ forNumbers 4 0.
Proof.
  destruct (index_not_mutated saveToBytesWithObjectStreams
              (freshStore scenarioDocument) (or_intror eq_refl))
    as (_ & Hindex & Hfresh).
  split; [exact Hindex|]. exact (Hfresh scenario_maxObjNum).
Defined.

Lemma twoCatalogs_has_catalogs :
  1 < length (catalogs (index (doc_index (document (freshStore twoCatalogsDocument))))).
Proof. vm_compute. lia. Defined.

(** On the document with the Catalogs 1 and 2, 2 being the last in the
    index, the classic path writes the root 1 and the compact path the
    root 2. *)
Lemma several_catalogs_witness :
  1 < length (catalogs (index (doc_index (document (freshStore twoCatalogsDocument))))) ∧
  ∃ trailer xrefStream,
    trailersWritten (saveToBytes (freshStore twoCatalogsDocument)).2 = [trailer] ∧
    Root (trailer_dictionary trailer) = forNumbers 1 0 ∧
    xrefStreamsWritten
      (saveToBytesWithObjectStreams (freshStore twoCatalogsDocument)).2
      = [xrefStream] ∧
    xref_root xrefStream = forNumbers 2 0.
Proof.
  split; [exact twoCatalogs_has_catalogs|].
  destruct several_catalogs as [Hboth _].
  destruct (Hboth (freshStore twoCatalogsDocument) twoCatalogs_has_catalogs)
    as (result1 & s1 & result2 & s2 & first & lastEntry & trailer & xrefStream
        & Hrun1 & Hrun2 & Htrailer & Hroot & Hfind & _ & _
        & Hxref & Hxroot & Hlast).
  exists trailer, xrefStream. rewrite Hrun1, Hrun2. simpl.
  split; [exact Htrailer|]. split.
  { rewrite Hroot. vm_compute in Hfind. by injection Hfind as <-. }
  split; [exact Hxref|].
  rewrite Hxroot. vm_compute in Hlast. by injection Hlast as <-.
Defined.

(** ** More properties on the sample documents *)

(** On the scenario the classic path writes the units 1, 2 and 3 in that
    order, and the table is made from them. *)
Lemma classic_file_order_witness :
  0 < length (catalogs (index (doc_index (document (freshStore scenarioDocument))))) ∧
  ∃ result s' sortedIndex table,
    saveToBytes (freshStore scenarioDocument) = (Normal result, s') ∧
    objectsWritten s' = sortedIndex ∧
    table_objects table = sortedIndex ∧
    XRefTable table ∈ sectionsWritten s' ∧
    StronglySorted objectNumber_le sortedIndex.
Proof.
  split; [exact scenario_has_catalog|].
  destruct (classic_file_order (freshStore scenarioDocument) scenario_has_catalog)
    as (result & s' & sortedIndex & table & trailer & written
        & Hrun & Hjournal & Hcopied & _ & Hsorted & Htable & _ & _ & Hobjects & _).
  exists result, s', sortedIndex, table.
  split; [exact Hrun|]. split; [exact Hobjects|]. split; [exact Htable|].
  split; [|exact Hsorted].
  unfold sectionsWritten. rewrite Hjournal. simpl. rewrite Hcopied.
  rewrite !elem_of_app. right. right. by left.
Defined.

Lemma scenario_shuffled :
  index (doc_index (document (freshStore scenarioDocument)))
  ≡ₚ index (doc_index (document (freshStore shuffledDocument))).
Proof. exact (Permutation_app_comm [_; _] [_]). Defined.

Lemma scenario_distinct_numbers :
  NoDup ((λ entry, objectNumber entry.1)
           <$> index (doc_index (document (freshStore scenarioDocument)))).
Proof.
  simpl. repeat (apply NoDup_cons; split; [rewrite ?elem_of_cons, elem_of_nil; lia|]).
  apply NoDup_nil. done.
Defined.

(** The scenario and the shuffled scenario sort to the same sequence. *)
Lemma sortIndex_ignores_iteration_order_witness :
  index (doc_index scenarioDocument) ≡ₚ index (doc_index shuffledDocument) ∧
  NoDup ((λ entry, objectNumber entry.1) <$> index (doc_index scenarioDocument)) ∧
  ∃ units,
    sortIndex (index (doc_index scenarioDocument)) (freshStore scenarioDocument)
      = (Normal units, freshStore scenarioDocument) ∧
    sortIndex (index (doc_index shuffledDocument)) (freshStore shuffledDocument)
      = (Normal units, freshStore shuffledDocument).
Proof.
  split; [exact scenario_shuffled|]. split; [exact scenario_distinct_numbers|].
  exact (sortIndex_ignores_iteration_order _ _ _ _
           scenario_shuffled scenario_distinct_numbers).
Defined.

(** The scenario and the shuffled scenario get trailers with the same
    offset, [Size] and [Root]. *)
Lemma saveToBytes_ignores_iteration_order_witness :
  index (doc_index scenarioDocument) ≡ₚ index (doc_index shuffledDocument) ∧
  NoDup ((λ entry, objectNumber entry.1) <$> index (doc_index scenarioDocument)) ∧
  ∃ trailer1 trailer2,
    last (sectionsWritten (saveToBytes (freshStore scenarioDocument)).2)
      = Some (Trailer trailer1) ∧
    last (sectionsWritten (saveToBytes (freshStore shuffledDocument)).2)
      = Some (Trailer trailer2) ∧
    trailer_offset trailer1 = trailer_offset trailer2 ∧
    Size (trailer_dictionary trailer1) = Size (trailer_dictionary trailer2) ∧
    Root (trailer_dictionary trailer1) = Root (trailer_dictionary trailer2).
Proof.
  split; [exact scenario_shuffled|]. split; [exact scenario_distinct_numbers|].
  destruct (saveToBytes_ignores_iteration_order
              (freshStore scenarioDocument) (freshStore shuffledDocument)
              scenario_shuffled scenario_distinct_numbers eq_refl
              scenario_has_catalog)
    as (result1 & s1' & result2 & s2' & written1 & written2 & body & table
        & trailer1 & trailer2
        & Hrun1 & Hrun2 & Hj1 & Hj2 & Hc1 & Hc2 & Hoffset & Hsize & Hroot).
  exists trailer1, trailer2. rewrite Hrun1, Hrun2. unfold sectionsWritten. simpl.
  rewrite Hj1, Hj2. simpl. rewrite Hc1, Hc2, !last_app. simpl.
  by split_and!.
Defined.

Lemma scenario_one_catalog :
  length (catalogs (index (doc_index (document (freshStore scenarioDocument))))) = 1.
Proof. reflexivity. Defined.

(** On the scenario, which has one Catalog, the two paths record the same
    root. *)
Lemma roots_are_catalogs_witness :
  0 < length (catalogs (index (doc_index (document (freshStore scenarioDocument))))) ∧
  length (catalogs (index (doc_index (document (freshStore scenarioDocument))))) = 1 ∧
  ∃ trailer xrefStream,
    trailersWritten (saveToBytes (freshStore scenarioDocument)).2 = [trailer] ∧
    xrefStreamsWritten
      (saveToBytesWithObjectStreams (freshStore scenarioDocument)).2
      = [xrefStream] ∧
    Root (trailer_dictionary trailer) = xref_root xrefStream.
Proof.
  split; [exact scenario_has_catalog|]. split; [exact scenario_one_catalog|].
  destruct (roots_are_catalogs (freshStore scenarioDocument) scenario_has_catalog)
    as (result1 & s1 & result2 & s2 & trailer & xrefStream
        & Hrun1 & Hrun2 & Htrailer & Hxref & _ & _ & Hsame).
  exists trailer, xrefStream. rewrite Hrun1, Hrun2. simpl.
  split; [exact Htrailer|]. split; [exact Hxref|].
  exact (Hsame scenario_one_catalog).
Defined.

(** In a store that holds a buffer, the classic path adds one buffer and
    leaves the first as it was. *)
Lemma one_buffer_per_call_witness :
  ∃ result s' bytes,
    saveToBytes (busyStore scenarioDocument) = (Normal result, s') ∧
    arrayBuffers s' = [[x01; x02; x03]; bytes] ∧
    buffer result = 1 ∧
    contents result s' = bytes.
Proof.
  pose proof (one_buffer_per_call saveToBytes (busyStore scenarioDocument)
                (or_introl eq_refl)) as Hone.
  destruct (saveToBytes (busyStore scenarioDocument)) as [[result|msg] s'] eqn:Hrun;
    [|by vm_compute in Hrun].
  destruct Hone as (bytes & Hbuffers & Hbuffer & _ & _ & Hcontents).
  exists result, s', bytes. by split_and!.
Defined.

(** On the scenario the table is copied at the offset the trailer holds. *)
Lemma trailers_point_to_xref_witness :
  SizesExact ∧
  ∃ result s' c table trailer,
    saveToBytes (freshStore scenarioDocument) = (Normal result, s') ∧
    c ∈ journal s' ∧
    copied c = XRefTable table ∧
    last (sectionsWritten s') = Some (Trailer trailer) ∧
    byteOffset (into c) = trailer_offset trailer.
Proof.
  split; [exact sample_SizesExact|].
  destruct (saveToBytes (freshStore scenarioDocument)) as [[result|msg] s'] eqn:Hrun;
    [|by vm_compute in Hrun].
  destruct (trailers_point_to_xref (freshStore scenarioDocument) sample_SizesExact)
    as [Hclassic _].
  destruct (Hclassic result s' Hrun)
    as (written & c & table & trailer & Hjournal & Hin & Hcopied & Hlast & Hinto).
  exists result, s', c, table, trailer.
  split; [reflexivity|]. unfold sectionsWritten. rewrite Hjournal. simpl.
  split; [exact Hin|]. split; [exact Hcopied|]. split; [exact Hlast|].
  by rewrite Hinto.
Defined.

Lemma stale_has_catalog :
  0 < length (catalogs (index (doc_index (document (freshStore staleDocument))))).
Proof. vm_compute. lia. Defined.

Lemma stale_has_next :
  (forNumbers (Number_add (maxObjNum (document (freshStore staleDocument))) 1) 0,
   SampleStream)
    ∈ index (doc_index (document (freshStore staleDocument))).
Proof. right. left. Defined.

(** On the document whose [maxObjNum] is 3 and whose index holds the
    stream 4, the body has two units with the reference 4. *)
Lemma objectStream_reference_not_checked_witness :
  0 < length (catalogs (index (doc_index (document (freshStore staleDocument))))) ∧
  (forNumbers 4 0, SampleStream)
    ∈ index (doc_index (document (freshStore staleDocument))) ∧
  ∃ written objectStream i,
    objectsWritten (saveToBytesWithObjectStreams (freshStore staleDocument)).2
      = written ∧
    last written = Some objectStream ∧
    reference objectStream = forNumbers 4 0 ∧
    i < pred (length written) ∧
    (reference <$> written) !! i = Some (forNumbers 4 0).
Proof.
  split; [exact stale_has_catalog|]. split; [exact stale_has_next|].
  destruct (objectStream_reference_not_checked
              (freshStore staleDocument) SampleStream
              stale_has_catalog stale_has_next)
    as (result & s' & written & objectStream & nonStreamObjects
        & Hrun & Hwritten & Hlast & Href & _ & Htwice).
  simpl in Htwice. destruct Htwice as (i & Hi & Hlookup).
  exists written, objectStream, i. rewrite Hrun. simpl.
  split; [exact Hwritten|]. split; [exact Hlast|]. split; [exact Href|].
  split; [exact Hi|]. rewrite Hlookup, Href. reflexivity.
Defined.

(** On the scenario the compact path gives the same output after the
    classic path as before it. *)
Lemma calls_compose_witness :
  output saveToBytesWithObjectStreams (saveToBytes (freshStore scenarioDocument)).2
  = output saveToBytesWithObjectStreams (freshStore scenarioDocument).
Proof.
  exact (proj1 (calls_compose saveToBytes saveToBytesWithObjectStreams
                  (freshStore scenarioDocument)
                  (or_introl eq_refl) (or_intror eq_refl))).
Defined.

(** On the scenario the root of the classic path is a body unit, and the
    root of the compact path is in the Object Stream, the last unit of the
    body. *)
Lemma roots_are_written_witness :
  0 < length (catalogs (index (doc_index (document (freshStore scenarioDocument))))) ∧
  ∃ trailer xrefStream unit1 unit2 nonStreamObjects,
    trailersWritten (saveToBytes (freshStore scenarioDocument)).2 = [trailer] ∧
    xrefStreamsWritten
      (saveToBytesWithObjectStreams (freshStore scenarioDocument)).2
      = [xrefStream] ∧
    unit1 ∈ objectsWritten (saveToBytes (freshStore scenarioDocument)).2 ∧
    reference unit1 = Root (trailer_dictionary trailer) ∧
    pdfObject (xref_objectStream xrefStream)
      = PDFObjectStream_create_encode (doc_index scenarioDocument) nonStreamObjects ∧
    last (objectsWritten
            (saveToBytesWithObjectStreams (freshStore scenarioDocument)).2)
      = Some (xref_objectStream xrefStream) ∧
    unit2 ∈ nonStreamObjects ∧
    reference unit2 = xref_root xrefStream.
Proof.
  split; [exact scenario_has_catalog|].
  destruct (roots_are_written (freshStore scenarioDocument) scenario_has_catalog)
    as (result1 & s1 & result2 & s2 & trailer & xrefStream & body1 & body2
        & nonStreamObjects
        & Hrun1 & Hrun2 & Htrailer & Hxref & Hbody1 & Hbody2 & Hmembers
        & Hlast2 & _
        & (unit1 & Hin1 & Href1 & _) & (unit2 & Href2 & Hcat2 & Hin2)).
  exists trailer, xrefStream, unit1, unit2, nonStreamObjects.
  rewrite Hrun1, Hrun2. simpl.
  split; [exact Htrailer|]. split; [exact Hxref|].
  split; [by rewrite Hbody1|]. split; [exact Href1|].
  split; [exact Hmembers|]. split; [by rewrite Hbody2|].
  split; [|exact Href2].
  destruct (pdfObject unit2); simpl in *; done.
Defined.
